(** * MotioNet protocol core: frame codec and query/set transaction layer

    A shallow embedding of
      - [core/var_convert.py]  (VarConvert.add_address, VarConvert.add_uint8),
      - [core/frame.py]        (ReturnCode, the packet classes, Frame),
      - [core/query_set.py]    (QuerySet),
      - [interface_wrapper/interface.py] (Interface.send_string, Interface._read,
        Interface.get_data_or_timeout),
    with pyserial and the clock as the environment.

    Python values are modelled as follows.
      - [int] is [Z]; [&] and [|] are [Z.land] and [Z.lor].
      - [bytes] and [list[int]] are [list Z]; an element of a [bytes] object
        lies in 0..255, which [bytes_ctor] checks where the source calls
        [bytes(...)].  No result below needs that range on received bytes.
      - [str] is the list of its code points, [ord] reads one of them.
      - an exception is a value of [exn]; a computation that may raise and
        that mutates [self] is a function from the object's state to an
        outcome and the state it leaves behind. *)

From Stdlib Require Import ZArith String Ascii List Bool Arith Lia.
From Equations Require Import Equations.
Import ListNotations.

Open Scope Z_scope.

(** ** Python values *)

Definition bytes := list Z.

Definition char := Z.
Definition str := list char.
Definition ord (c : char) : Z := c.

(** The [str] written as a literal: one code point per character. *)
Definition str_of_string (s : string) : str :=
  map (fun c => Z.of_nat (nat_of_ascii c)) (list_ascii_of_string s).

Definition is_ascii (s : str) : Prop := Forall (fun c => 0 <= c < 128) s.

(** ** Exceptions

    The classes the three modules raise or let through.  [ServerException]
    is a subclass of [GeneralException]; every class is a subclass of
    [Exception].  The text of a [GeneralException] is kept as a [message]
    (the "Query"/"Set" prefix of the text is left out). *)

Inductive section : Type := EchoSection | DataSection.

Inductive exn : Type :=
| IndexError                      (* rx_stream[i] with i out of range *)
| ValueError                      (* ReturnCode(x) for an unknown x; bytes(l) with an element outside range(256) *)
| AttributeError                  (* None.address *)
| TypeError                       (* ServerException() built without its message *)
| ChecksumException (s : section) (calculated actual : Z)
                                  (* raise Exception("Calculated ... checksum does not match ...") *)
| SerialException                 (* what pyserial raises, a timeout of its own apart *)
| SerialTimeoutException
| ResponseException
| ResponseTimeout
| ServerException
| GeneralException (m : message)
with message : Type :=
| Msg_Timeout                     (* "Query failed: Timeout!" *)
| Msg_Failed (e : exn)            (* f"Query failed : {e}" *)
| Msg_WrongAddress (received expected : Z)
| Msg_UnknownError.

(** [isinstance(e, ServerException)] and [isinstance(e, GeneralException)]. *)
Definition is_ServerException (e : exn) : bool :=
  match e with ServerException => true | _ => false end.

Definition is_ResponseTimeout (e : exn) : bool :=
  match e with ResponseTimeout => true | _ => false end.

Definition is_GeneralException (e : exn) : bool :=
  match e with ServerException | GeneralException _ => true | _ => false end.

Inductive result (A : Type) : Type :=
| Ok (a : A)
| Raise (e : exn).
Arguments Ok {A} a.
Arguments Raise {A} e.

Definition bind {A B} (r : result A) (k : A -> result B) : result B :=
  match r with
  | Ok a => k a
  | Raise e => Raise e
  end.

Declare Scope py_scope.
Delimit Scope py_scope with py.
Notation "x <- r ;; k" := (bind r (fun x => k))
  (at level 61, r at next level, right associativity) : py_scope.
Open Scope py_scope.

(** [b[i]] for [i >= 0]: the element, or IndexError. *)
Definition getitem (b : bytes) (i : nat) : result Z :=
  match nth_error b i with
  | Some x => Ok x
  | None => Raise IndexError
  end.

(** [b[lo:hi]] for [0 <= lo]: a slice never raises, it is cut at the end. *)
Definition slice (b : bytes) (lo hi : nat) : bytes :=
  firstn (hi - lo) (skipn lo b).

(** [bytes(l)]: ValueError unless every element is in range(256). *)
Definition in_range_256 (x : Z) : bool := (0 <=? x) && (x <? 256).

Definition bytes_ctor (l : list Z) : result bytes :=
  if forallb in_range_256 l then Ok l else Raise ValueError.

(** ** core/var_convert.py *)

Module VarConvert.

Definition add_address (stream : list Z) (value : Z) : list Z :=
  let value := Z.lor value 0x80 in
  stream ++ [value].

Definition add_uint8 (stream : list Z) (value : Z) : list Z :=
  stream ++ [value].

Definition add_string (stream : str) (value : str) : str :=
  stream ++ value.

End VarConvert.

(** ** core/frame.py: the data classes *)

Inductive ReturnCode : Type :=
| START | MOVE_ABORTED | COMMAND_FINISHED | SLAVE_CHECKSUM_ERROR
| SLAVE_ADDRESS_ERROR | INVALID_COMMAND | INVALID_PARAMETER | NO_COMMAND
| NO_MOVE_PENDING | MOVE_ALREADY_PENDING | BUSY | PRESENT | NOT_AVAILABLE
| MOVE_STOPPED.

Definition ReturnCode_value (c : ReturnCode) : Z :=
  match c with
  | START => 3 | MOVE_ABORTED => 4 | COMMAND_FINISHED => 5
  | SLAVE_CHECKSUM_ERROR => 7 | SLAVE_ADDRESS_ERROR => 8
  | INVALID_COMMAND => 12 | INVALID_PARAMETER => 14 | NO_COMMAND => 15
  | NO_MOVE_PENDING => 16 | MOVE_ALREADY_PENDING => 17 | BUSY => 20
  | PRESENT => 22 | NOT_AVAILABLE => 29 | MOVE_STOPPED => 32
  end.

(** [ReturnCode(x)]: the member whose value is [x], or ValueError. *)
Definition ReturnCode_of (x : Z) : result ReturnCode :=
  match x with
  | 3 => Ok START | 4 => Ok MOVE_ABORTED | 5 => Ok COMMAND_FINISHED
  | 7 => Ok SLAVE_CHECKSUM_ERROR | 8 => Ok SLAVE_ADDRESS_ERROR
  | 12 => Ok INVALID_COMMAND | 14 => Ok INVALID_PARAMETER
  | 15 => Ok NO_COMMAND | 16 => Ok NO_MOVE_PENDING
  | 17 => Ok MOVE_ALREADY_PENDING | 20 => Ok BUSY | 22 => Ok PRESENT
  | 29 => Ok NOT_AVAILABLE | 32 => Ok MOVE_STOPPED
  | _ => Raise ValueError
  end.

Record TxPacket : Type := mkTxPacket {
  tx_address : Z;
  tx_command : Z;
  tx_parameter : Z;
  tx_payload : str
}.

(** [TxPacket(address)]. *)
Definition TxPacket_init (address : Z) : TxPacket :=
  {| tx_address := address; tx_command := 0; tx_parameter := 0; tx_payload := [] |}.

Record EchoPacket : Type := mkEchoPacket {
  echo_address : Z;
  echo_command : Z;
  echo_return_code : ReturnCode
}.

Record DataPacket : Type := mkDataPacket {
  data_address : Z;
  data_command : Z;
  data_parameter : Z;
  data_payload : bytes
}.

Record RxPacket : Type := mkRxPacket {
  echo_packet : option EchoPacket;
  data_packet : option DataPacket
}.

(** [RxPacket()]. *)
Definition RxPacket_init : RxPacket :=
  {| echo_packet := None; data_packet := None |}.

(** ** core/frame.py: the codec (the methods of Frame that leave [self] alone) *)

Definition _calc_checksum (frame : list Z) : Z :=
  let checksum := fold_left (fun checksum byte => checksum + byte) frame 0 in
  Z.land checksum 0x7F.

Definition _decode_echo (rx_stream : bytes) : result EchoPacket :=
  address <- getitem rx_stream 0 ;;
  command <- getitem rx_stream 1 ;;
  raw <- getitem rx_stream 2 ;;
  return_code <- ReturnCode_of raw ;;
  let echo_checksum := _calc_checksum (slice rx_stream 0 4) in
  actual <- getitem rx_stream 4 ;;
  if negb (echo_checksum =? actual)
  then Raise (ChecksumException EchoSection echo_checksum actual)
  else Ok {| echo_address := address; echo_command := command;
             echo_return_code := return_code |}.

Definition inspect {A} (a : A) : {b : A | a = b} := exist _ a eq_refl.

(** [while rx_stream[i] != address: i += 1], giving the final [i]. *)
Equations? scan (rx_stream : bytes) (address : Z) (i : nat) : result nat
  by wf (length rx_stream - i)%nat lt :=
  scan rx_stream address i with inspect (nth_error rx_stream i) => {
    | exist _ None _ => Raise IndexError;
    | exist _ (Some b) _ =>
        if negb (b =? address) then scan rx_stream address (S i) else Ok i }.
Proof.
  assert (i < length rx_stream)%nat
    by (apply nth_error_Some; congruence).
  lia.
Qed.

Definition _decode_data (rx_stream : bytes) : result DataPacket :=
  address <- getitem rx_stream 5 ;;
  command <- getitem rx_stream 6 ;;
  i <- scan rx_stream address 7 ;;
  let payload := slice rx_stream 7 i in
  let data_checksum := _calc_checksum (slice rx_stream 5 (i + 1)) in
  actual <- getitem rx_stream (i + 1) ;;
  if negb (data_checksum =? actual)
  then Raise (ChecksumException DataSection data_checksum actual)
  else Ok {| data_address := address; data_command := command;
             data_parameter := 0; data_payload := payload |}.

Definition _decode_frame (rx_frame : RxPacket) (rx_stream : bytes) : result RxPacket :=
  echo_frame <- _decode_echo rx_stream ;;
  data_frame <- _decode_data rx_stream ;;
  Ok {| echo_packet := Some echo_frame; data_packet := Some data_frame |}.

(** ** Stateful methods

    A method that may mutate the object it is called on and may raise: from
    the state of [self] to what it returns or raises, and the state it
    leaves.  What was assigned before an exception stays assigned. *)

Definition M (S A : Type) : Type := S -> result A * S.

Definition ret {S A} (a : A) : M S A := fun s => (Ok a, s).

Definition raise {S A} (e : exn) : M S A := fun s => (Raise e, s).

Definition lift {S A} (r : result A) : M S A := fun s => (r, s).

Definition mbind {S A B} (m : M S A) (k : A -> M S B) : M S B :=
  fun s =>
    match m s with
    | (Ok a, s') => k a s'
    | (Raise e, s') => (Raise e, s')
    end.

(** [try: m  except ... as e: h e]. *)
Definition try_except {S A} (m : M S A) (h : exn -> M S A) : M S A :=
  fun s =>
    match m s with
    | (Ok a, s') => (Ok a, s')
    | (Raise e, s') => h e s'
    end.

Notation "x <~ m ;; k" := (mbind m (fun x => k))
  (at level 61, m at next level, right associativity) : py_scope.
Notation "m ;;; k" := (mbind m (fun _ => k))
  (at level 61, right associativity) : py_scope.

(** ** interface_wrapper/interface.py

    The serial port and the clock are outside the program.  A [Port] fixes
    what they do:
      - whether the n-th [send_string] goes through or pyserial raises in it;
      - what the k-th [ser.read(size=1)] of the n-th [get_data_or_timeout]
        does: it returns one byte, it returns no byte (the read timed out,
        so [_read] raises ResponseTimeout), it raises
        SerialTimeoutException, or it raises something else;
      - the values [1000 * (time.monotonic() - start_time_seconds)] takes in
        the n-th [get_data_or_timeout], one per pass of its loop, in whole
        milliseconds ([timeout] is an int, so comparing it with the float of
        the source or with its whole part gives the same answer).  A port
        describes calls that end: when the listed readings are used up the
        deadline has passed.
    The [Interface] object keeps what was handed to [send_string] and how
    often [get_data_or_timeout] was called. *)

Inductive tx_outcome : Type :=
| Written
| WriteRaises.

Inductive read_outcome : Type :=
| OneByte (b : Z)
| NoByte
| ReadTimesOut
| ReadRaises.

Record Port : Type := mkPort {
  on_send_string : nat -> bytes -> tx_outcome;
  on_read : nat -> nat -> read_outcome;
  clock_ms : nat -> list Z
}.

(** [_read(size=1)], the k-th of the n-th call of get_data_or_timeout. *)
Definition _read (p : Port) (n k : nat) : result Z :=
  match on_read p n k with
  | OneByte b => Ok b
  | NoByte => Raise ResponseTimeout
  | ReadTimesOut => Raise SerialTimeoutException
  | ReadRaises => Raise SerialException
  end.

(** The [while runtime_milliseconds < timeout] of get_data_or_timeout, from
    its k-th pass on, with the readings the clock has yet to give.
    ResponseTimeout from [_read] is caught inside the loop; what else
    [_read] raises leaves the loop. *)
Fixpoint read_loop (p : Port) (n : nat) (timeout : Z) (clock : list Z) (k : nat)
         (response_frame : bytes) (runtime_milliseconds : Z) : result bytes :=
  if runtime_milliseconds <? timeout
  then
    match _read p n k with
    | Ok response_byte =>
        let response_frame := response_frame ++ [response_byte] in
        match clock with
        | now :: clock => read_loop p n timeout clock (S k) response_frame now
        | [] => Ok response_frame
        end
    | Raise ResponseTimeout =>
        if runtime_milliseconds >=? timeout
        then Ok response_frame
        else
          match clock with
          | now :: clock => read_loop p n timeout clock (S k) response_frame now
          | [] => Ok response_frame
          end
    | Raise e => Raise e
    end
  else Ok response_frame.

(** What the n-th call of get_data_or_timeout returns or raises: the bytes
    gathered when the loop ends, ResponseTimeout for a
    SerialTimeoutException, ResponseException for any other exception. *)
Definition gathered (p : Port) (n : nat) (timeout : Z) : result bytes :=
  match read_loop p n timeout (clock_ms p n) 0 [] 0 with
  | Ok response_frame => Ok response_frame
  | Raise SerialTimeoutException => Raise ResponseTimeout
  | Raise _ => Raise ResponseException
  end.

Record Interface : Type := mkInterface {
  sent : list bytes;      (* every stream handed to send_string, oldest first *)
  reads : nat             (* calls of get_data_or_timeout so far *)
}.

Definition Interface_init : Interface := {| sent := []; reads := 0 |}.

Record Frame : Type := mkFrame {
  phy_com : Interface;
  tx_checksum : Z
}.

(** [QuerySet.phy_com] is the same object as [me_frame.phy_com]; the methods
    of QuerySet reach it only through [me_frame]. *)
Record QuerySet : Type := mkQuerySet {
  me_frame : Frame;
  is_ready : bool
}.

(** A method of the attribute, run from the object that holds it. *)
Definition on_phy_com {A} (m : M Interface A) : M Frame A :=
  fun self =>
    let (r, phy) := m (phy_com self) in
    (r, {| phy_com := phy; tx_checksum := tx_checksum self |}).

Definition on_me_frame {A} (m : M Frame A) : M QuerySet A :=
  fun self =>
    let (r, frame) := m (me_frame self) in
    (r, {| me_frame := frame; is_ready := is_ready self |}).

Definition set_tx_checksum (v : Z) : M Frame unit :=
  fun self => (Ok tt, {| phy_com := phy_com self; tx_checksum := v |}).

Definition set_is_ready (v : bool) : M QuerySet unit :=
  fun self => (Ok tt, {| me_frame := me_frame self; is_ready := v |}).

Section WithPort.

Variable p : Port.

Definition send_string (stream : bytes) : M Interface unit :=
  fun self =>
    let self' := {| sent := sent self ++ [stream]; reads := reads self |} in
    match on_send_string p (List.length (sent self)) stream with
    | Written => (Ok tt, self')
    | WriteRaises => (Raise SerialException, self')
    end.

Definition get_data_or_timeout (timeout : Z) : M Interface bytes :=
  fun self =>
    (gathered p (reads self) timeout,
     {| sent := sent self; reads := S (reads self) |}).

(** ** core/frame.py: Frame *)

Definition Frame_init (interface : Interface) : Frame :=
  {| phy_com := interface; tx_checksum := 0 |}.

(** The stream [send_frame] builds before [bytes(tx_stream)]. *)
Definition build_tx_stream (tx_frame : TxPacket) : list Z * Z :=
  let tx_stream := [] in
  let tx_stream := VarConvert.add_address tx_stream (tx_address tx_frame) in
  let tx_stream :=
    fold_left (fun tx_stream ascii_char => tx_stream ++ [ord ascii_char])
              (tx_payload tx_frame) tx_stream in
  let tx_stream := VarConvert.add_address tx_stream (tx_address tx_frame) in
  let checksum := _calc_checksum tx_stream in
  (VarConvert.add_uint8 tx_stream checksum, checksum).

Definition send_frame (tx_frame : TxPacket) : M Frame unit :=
  let (tx_stream, checksum) := build_tx_stream tx_frame in
  set_tx_checksum checksum ;;;
  tx_stream_bytes <~ lift (bytes_ctor tx_stream) ;;
  on_phy_com (send_string tx_stream_bytes).

Definition receive_frame_or_timeout (timeout : Z) : M Frame RxPacket :=
  let rx_frame := RxPacket_init in
  rx_stream <~ on_phy_com (get_data_or_timeout timeout) ;;
  lift (_decode_frame rx_frame rx_stream).

(** ** core/query_set.py: QuerySet *)

Definition QuerySet_init (interface : Interface) : QuerySet :=
  {| me_frame := Frame_init interface; is_ready := false |}.

Definition check_if_connected : M QuerySet bool := ret true.

(** local_query, below its [while]: reached with [rx_frame] as it was
    before the loop, since an assignment to it inside the loop is followed
    by [return]. *)
Definition local_query_after_loop (tx_frame : TxPacket) (rx_frame : RxPacket)
  : M QuerySet RxPacket :=
  match echo_packet rx_frame with
  | None => raise AttributeError
  | Some echo =>
      if negb (echo_address echo =? tx_address tx_frame)
      then raise (GeneralException
                    (Msg_WrongAddress (echo_address echo) (tx_address tx_frame)))
      else raise (GeneralException Msg_UnknownError)
  end.

(** The [while trials_left > 0] of local_query, entered with [trials_left]. *)
Fixpoint local_query_loop (tx_frame : TxPacket) (timeout : Z) (rx_frame : RxPacket)
         (trials_left : nat) : M QuerySet RxPacket :=
  match trials_left with
  | O => local_query_after_loop tx_frame rx_frame
  | S trials_left =>
      try_except
        (on_me_frame (send_frame tx_frame) ;;;
         rx_frame <~ on_me_frame (receive_frame_or_timeout timeout) ;;
         ret rx_frame)
        (fun e =>
           match e with
           | ResponseTimeout =>
               if (trials_left =? 0)%nat
               then raise (GeneralException Msg_Timeout)
               else local_query_loop tx_frame timeout rx_frame trials_left
           | ServerException => raise e
           | _ => raise (GeneralException (Msg_Failed e))
           end)
  end.

Definition local_query (tx_frame : TxPacket) (timeout : Z) : M QuerySet RxPacket :=
  let trials_left := 3%nat in
  let rx_frame := RxPacket_init in
  local_query_loop tx_frame timeout rx_frame trials_left.

(** local_set, below its [while]: [rx_frame] is still the [TxPacket()] it
    was bound to before the loop, whose address is the default 1. *)
Definition local_set_after_loop (tx_frame : TxPacket) (rx_frame : TxPacket)
  : M QuerySet RxPacket :=
  if negb (tx_address rx_frame =? tx_address tx_frame)
  then raise (GeneralException
                (Msg_WrongAddress (tx_address rx_frame) (tx_address tx_frame)))
  else raise (GeneralException Msg_UnknownError).

(** [raise ServerException] names the class; building the instance fails
    for want of the [message] argument of GeneralException.__init__. *)
Fixpoint local_set_loop (tx_frame : TxPacket) (timeout : Z) (rx_frame : TxPacket)
         (trials_left : nat) : M QuerySet RxPacket :=
  match trials_left with
  | O => local_set_after_loop tx_frame rx_frame
  | S trials_left =>
      try_except
        (on_me_frame (send_frame tx_frame) ;;;
         rx_frame <~ on_me_frame (receive_frame_or_timeout timeout) ;;
         ret rx_frame)
        (fun e =>
           match e with
           | ResponseTimeout =>
               if (trials_left =? 0)%nat
               then raise (GeneralException Msg_Timeout)
               else local_set_loop tx_frame timeout rx_frame trials_left
           | ServerException => raise TypeError
           | _ => raise (GeneralException (Msg_Failed e))
           end)
  end.

Definition local_set (tx_frame : TxPacket) (timeout : Z) : M QuerySet RxPacket :=
  let trials_left := 3%nat in
  let rx_frame := TxPacket_init 1 in
  local_set_loop tx_frame timeout rx_frame trials_left.

(** The handlers of query and set.  The outer [except NotConnectedException]
    re-raises what it catches and nothing here raises that class. *)
Definition query (tx_frame : TxPacket) (timeout : Z) : M QuerySet RxPacket :=
  check_if_connected ;;;
  try_except
    (rx_frame <~ local_query tx_frame timeout ;; ret rx_frame)
    (fun e =>
       if is_ServerException e then raise e
       else if is_GeneralException e then set_is_ready false ;;; raise e
       else raise e).

Definition set (tx_frame : TxPacket) (timeout : Z) : M QuerySet RxPacket :=
  check_if_connected ;;;
  try_except
    (rx_frame <~ local_set tx_frame timeout ;; ret rx_frame)
    (fun e =>
       if is_ServerException e then raise e
       else if is_GeneralException e then set_is_ready false ;;; raise e
       else raise e).

End WithPort.

(** The number of [send_string] calls a method made. *)
Definition sends (before after : QuerySet) : nat :=
  (List.length (sent (phy_com (me_frame after)))
   - List.length (sent (phy_com (me_frame before))))%nat.

(** ** One attempt, and the states it leaves

    The body of the [try] in the loops of local_query and local_set, and the
    state of a QuerySet after [send_frame] stored a checksum, after
    [send_string] was handed a stream, and after [get_data_or_timeout] was
    called once more. *)

Definition attempt (p : Port) (tx_frame : TxPacket) (timeout : Z)
  : M QuerySet RxPacket :=
  on_me_frame (send_frame p tx_frame) ;;;
  rx_frame <~ on_me_frame (receive_frame_or_timeout p timeout) ;;
  ret rx_frame.

Definition stored (checksum : Z) (self : QuerySet) : QuerySet :=
  {| me_frame := {| phy_com := phy_com (me_frame self); tx_checksum := checksum |};
     is_ready := is_ready self |}.

Definition wrote (stream : bytes) (self : QuerySet) : QuerySet :=
  {| me_frame :=
       {| phy_com := {| sent := sent (phy_com (me_frame self)) ++ [stream];
                        reads := reads (phy_com (me_frame self)) |};
          tx_checksum := tx_checksum (me_frame self) |};
     is_ready := is_ready self |}.

Definition did_read (self : QuerySet) : QuerySet :=
  {| me_frame :=
       {| phy_com := {| sent := sent (phy_com (me_frame self));
                        reads := S (reads (phy_com (me_frame self))) |};
          tx_checksum := tx_checksum (me_frame self) |};
     is_ready := is_ready self |}.

(** What a decode raises: IndexError on a stream cut short, ValueError on a
    status byte that is no ReturnCode, the checksum Exception. *)
Definition decode_failure (e : exn) : bool :=
  match e with
  | IndexError | ValueError | ChecksumException _ _ _ => true
  | _ => false
  end.

(** The exceptions the codec and the interface can raise. *)
Definition below_transaction_layer (e : exn) : bool :=
  match e with
  | IndexError | ValueError | ChecksumException _ _ _
  | SerialException | ResponseException | ResponseTimeout => true
  | _ => false
  end.

(** What local_query and local_set raise once the loop ran at least once:
    the timeout text, or the text that wraps a failure from below. *)
Definition transaction_failure (e : exn) : bool :=
  match e with
  | GeneralException Msg_Timeout => true
  | GeneralException (Msg_Failed cause) =>
      below_transaction_layer cause && negb (is_ResponseTimeout cause)
  | _ => false
  end.

Definition sent_count (self : QuerySet) : nat :=
  List.length (sent (phy_com (me_frame self))).

(** ** Calls on a QuerySet, in sequence *)

Inductive call : Type :=
| Call_query (tx_frame : TxPacket) (timeout : Z)
| Call_set (tx_frame : TxPacket) (timeout : Z)
| Call_local_query (tx_frame : TxPacket) (timeout : Z)
| Call_local_set (tx_frame : TxPacket) (timeout : Z)
| Call_check_if_connected.

Definition run_call (p : Port) (self : QuerySet) (c : call) : QuerySet :=
  match c with
  | Call_query tx_frame timeout => snd (query p tx_frame timeout self)
  | Call_set tx_frame timeout => snd (set p tx_frame timeout self)
  | Call_local_query tx_frame timeout => snd (local_query p tx_frame timeout self)
  | Call_local_set tx_frame timeout => snd (local_set p tx_frame timeout self)
  | Call_check_if_connected => snd (check_if_connected self)
  end.

Definition run_calls (p : Port) (calls : list call) (self : QuerySet) : QuerySet :=
  fold_left (run_call p) calls self.

(** ** Sample ports and requests *)

(** Every write goes through; the clock reads 10, 20, ..., 600 ms in the
    passes of each call.  In the n-th call of get_data_or_timeout the reads
    do what the n-th entry of the script lists, one after the other, and
    find no byte once it is used up. *)
Definition scripted (script : list (list read_outcome)) : Port :=
  {| on_send_string := fun _ _ => Written;
     on_read := fun n k => nth k (nth n script []) NoByte;
     clock_ms := fun _ => map (fun k => 10 * Z.of_nat k) (seq 1 60) |}.

(** The bytes of a stream arriving one per read. *)
Definition arriving (rx_stream : bytes) : list read_outcome :=
  map OneByte rx_stream.

(** A port on which nothing ever arrives. *)
Definition silent : Port := scripted [].

(** The request "E" to device 1; on the wire [129; 69; 129; 71]. *)
Definition request_E : TxPacket :=
  {| tx_address := 1; tx_command := 0; tx_parameter := 0;
     tx_payload := str_of_string "E" |}.

Definition fresh : QuerySet := QuerySet_init Interface_init.

(** ** The checksum as the protocol text words it

    The sum of all byte values of the protected region, with no modulus
    taken on the way, then the low seven bits of that sum. *)

Definition region_sum (region : list Z) : Z := fold_right Z.add 0 region.

Definition checksum_spec (region : list Z) : Z := Z.land (region_sum region) 0x7F.

(** ** Sample streams

    Device 1 (address byte 129) answering the command 'E' (69). *)

(** An echo section alone: status COMMAND_FINISHED, checksum (129+69+5+0) & 0x7F. *)
Definition echo_only_stream : bytes := [129; 69; 5; 0; 75].

(** The same echo section, then a data section with the payload "12". *)
Definition echo_and_data_stream : bytes :=
  [129; 69; 5; 0; 75; 129; 69; 49; 50; 129; 42].

(** The same, cut before the closing address byte of the data section. *)
Definition unterminated_stream : bytes := [129; 69; 5; 0; 75; 129; 69; 49; 50].

(** A sound answer from device 2 (address byte 130) with the payload "12". *)
Definition other_device_stream : bytes :=
  [130; 69; 5; 0; 76; 130; 69; 49; 50; 130; 44].

(** A sound answer of device 1 whose status is INVALID_COMMAND (12). *)
Definition invalid_command_stream : bytes :=
  [129; 69; 12; 0; 82; 129; 69; 49; 50; 129; 42].

(** [echo_and_data_stream] with a wrong echo checksum (74 for 75). *)
Definition corrupted_stream : bytes :=
  [129; 69; 5; 0; 74; 129; 69; 49; 50; 129; 42].

(** [echo_and_data_stream] with a status byte (6) that is no ReturnCode. *)
Definition unknown_status_stream : bytes :=
  [129; 69; 6; 0; 76; 129; 69; 49; 50; 129; 42].

(** What [_decode_frame] makes of [echo_and_data_stream]. *)
Definition echo_and_data_frame : RxPacket :=
  {| echo_packet :=
       Some {| echo_address := 129; echo_command := 69;
               echo_return_code := COMMAND_FINISHED |};
     data_packet :=
       Some {| data_address := 129; data_command := 69;
               data_parameter := 0; data_payload := [49; 50] |} |}.

From Stdlib Require Import Permutation DecimalString.

(** ** Further definitions

    The bytes the reads k, k+1, ..., k+m-1 of the n-th call of
    get_data_or_timeout deliver, in order: one byte for a read that returns
    a byte, nothing for the others. *)

Definition bytes_of_reads (p : Port) (n k m : nat) : bytes :=
  flat_map (fun j => match on_read p n j with OneByte b => [b] | _ => [] end)
           (seq k m).

(** A port whose writes all fail and on which nothing arrives. *)
Definition unplugged : Port :=
  {| on_send_string := fun _ _ => WriteRaises;
     on_read := fun _ _ => NoByte;
     clock_ms := fun _ => [] |}.

(** The request "€" to device 1: the code point 8364 fits no byte. *)
Definition request_euro : TxPacket :=
  {| tx_address := 1; tx_command := 0; tx_parameter := 0; tx_payload := [8364] |}.

(** ** core/var_convert.py: the methods on text

    These methods write numbers into a [str] as upper-case hexadecimal text
    and read them back.  They raise what the built-ins they call raise:
    KeyError from a dict, ValueError from [bytes.fromhex], struct.error from
    [struct.unpack]. *)

Inductive conv_error : Type :=
| KeyError
| HexValueError
| StructError.

Inductive converted (A : Type) : Type :=
| Value (a : A)
| Fails (e : conv_error).
Arguments Value {A} a.
Arguments Fails {A} e.

(** [d[key]] for a dict written as the list of its items. *)
Fixpoint dict_getitem {K V : Type} (eq_dec : forall x y : K, {x = y} + {x <> y})
         (d : list (K * V)) (key : K) : converted V :=
  match d with
  | [] => Fails KeyError
  | (k, v) :: d => if eq_dec key k then Value v else dict_getitem eq_dec d key
  end.

Definition CONVERT_TO_HEX_DICT : list (Z * str) :=
  [(0, str_of_string "0"); (1, str_of_string "1"); (2, str_of_string "2");
   (3, str_of_string "3"); (4, str_of_string "4"); (5, str_of_string "5");
   (6, str_of_string "6"); (7, str_of_string "7"); (8, str_of_string "8");
   (9, str_of_string "9"); (10, str_of_string "A"); (11, str_of_string "B");
   (12, str_of_string "C"); (13, str_of_string "D"); (14, str_of_string "E");
   (15, str_of_string "F")].

Definition CONVERT_TO_DEC_DICT : list (str * Z) :=
  [(str_of_string "0", 0); (str_of_string "1", 1); (str_of_string "2", 2);
   (str_of_string "3", 3); (str_of_string "4", 4); (str_of_string "5", 5);
   (str_of_string "6", 6); (str_of_string "7", 7); (str_of_string "8", 8);
   (str_of_string "9", 9); (str_of_string "A", 10); (str_of_string "B", 11);
   (str_of_string "C", 12); (str_of_string "D", 13); (str_of_string "E", 14);
   (str_of_string "F", 15)].

Definition convert_to_hex (value : Z) : converted str :=
  dict_getitem Z.eq_dec CONVERT_TO_HEX_DICT value.

Definition convert_to_dec (hex_value : str) : converted Z :=
  dict_getitem (list_eq_dec Z.eq_dec) CONVERT_TO_DEC_DICT hex_value.

(** The character of a hexadecimal digit, upper case: '0'..'9', 'A'..'F'. *)
Definition hex_char (d : Z) : char := if d <? 10 then 48 + d else 55 + d.

(** The hexadecimal digits of [v >= 0], most significant first, without
    leading zeros ([0] has the one digit 0); [fuel] bounds their number. *)
Fixpoint hex_digits_upto (fuel : nat) (v : Z) : list Z :=
  match fuel with
  | O => []
  | S fuel =>
      if v <? 16 then [v] else hex_digits_upto fuel (v / 16) ++ [v mod 16]
  end.

Definition hex_digits (v : Z) : list Z :=
  hex_digits_upto (S (Z.to_nat (Z.log2 v))) v.

Definition zero_pad (width : nat) (digits : str) : str :=
  repeat 48 (width - List.length digits) ++ digits.

(** ["{:0wX}".format(value)] for an int: upper-case digits, padded with
    zeros to [width] characters, the sign of a negative value counted in the
    width and put first. *)
Definition format_0X (width : nat) (value : Z) : str :=
  if value <? 0
  then 45 :: zero_pad (width - 1) (map hex_char (hex_digits (- value)))
  else zero_pad width (map hex_char (hex_digits value)).

Definition add_uint16 (stream : str) (value : Z) : str :=
  stream ++ format_0X 4 value.

Definition add_uint32 (stream : str) (value : Z) : str :=
  stream ++ format_0X 8 value.

Definition add_int32 (stream : str) (value : Z) : str :=
  add_uint32 stream value.

(** The value of a hexadecimal digit character, either case. *)
Definition hex_value (c : char) : option Z :=
  if (48 <=? c) && (c <=? 57) then Some (c - 48)
  else if (65 <=? c) && (c <=? 70) then Some (c - 55)
  else if (97 <=? c) && (c <=? 102) then Some (c - 87)
  else None.

(** ASCII whitespace: space, \t, \n, \v, \f, \r. *)
Definition is_space (c : char) : bool := (c =? 32) || ((9 <=? c) && (c <=? 13)).

(** [bytes.fromhex(s)]: two digits per byte, whitespace skipped before a
    byte and at the end, ValueError for anything else. *)
Fixpoint fromhex (s : str) : converted bytes :=
  match s with
  | [] => Value []
  | c :: s' =>
      if is_space c then fromhex s'
      else
        match hex_value c, s' with
        | Some top, c' :: s'' =>
            match hex_value c' with
            | Some bot =>
                match fromhex s'' with
                | Value b => Value ((16 * top + bot) :: b)
                | Fails e => Fails e
                end
            | None => Fails HexValueError
            end
        | _, _ => Fails HexValueError
        end
  end.

(** [unpack("!B", b)[0]], [unpack("!H", b)[0]], [unpack("!i", b)[0]]:
    network byte order, struct.error unless [b] has the size of the format. *)
Definition unpack_B (b : bytes) : converted Z :=
  match b with
  | [b0] => Value b0
  | _ => Fails StructError
  end.

Definition unpack_H (b : bytes) : converted Z :=
  match b with
  | [b0; b1] => Value (256 * b0 + b1)
  | _ => Fails StructError
  end.

Definition unpack_i (b : bytes) : converted Z :=
  match b with
  | [b0; b1; b2; b3] =>
      let unsigned := ((256 * b0 + b1) * 256 + b2) * 256 + b3 in
      Value (if unsigned <? 2 ^ 31 then unsigned else unsigned - 2 ^ 32)
  | _ => Fails StructError
  end.

Definition read_uint8 (stream : str) : converted Z :=
  match fromhex stream with
  | Value b => unpack_B b
  | Fails e => Fails e
  end.

Definition read_uint16 (stream : str) : converted Z :=
  match fromhex stream with
  | Value b => unpack_H b
  | Fails e => Fails e
  end.

Definition read_int32 (stream : str) : converted Z :=
  match fromhex stream with
  | Value b => unpack_i b
  | Fails e => Fails e
  end.

(** The [width] hexadecimal digits of [v], most significant first: what is
    left of [v] beyond them is dropped. *)
Fixpoint fixed_digits (width : nat) (v : Z) : list Z :=
  match width with
  | O => []
  | S width => fixed_digits width (v / 16) ++ [v mod 16]
  end.

(** ** core/basic_cmd.py: BasicCmd

    Both methods catch every exception and raise ComCommandException with
    its text; the caught exception is kept as the [cause]. *)

Inductive cmd_outcome (A : Type) : Type :=
| Returned (a : A)
| ComCommandException (cause : exn).
Arguments Returned {A} a.
Arguments ComCommandException {A} cause.

(** [str(value)] of an int, which is what [f"{value}"] writes: the decimal
    digits, a minus sign before them for a negative value. *)
Definition str_of_int (value : Z) : str :=
  str_of_string (NilZero.string_of_int (Z.to_int value)).

(** [tx_frame.payload = ...] on a TxPacket. *)
Definition with_payload (tx_frame : TxPacket) (payload : str) : TxPacket :=
  {| tx_address := tx_address tx_frame; tx_command := tx_command tx_frame;
     tx_parameter := tx_parameter tx_frame; tx_payload := payload |}.

(** get_command.  Its [logging.info] reads [rx_frame.echo_packet.return_code]
    inside the [try]. *)
Definition get_command (p : Port) (address : Z) (command : str) (timeout : Z)
  : QuerySet -> cmd_outcome RxPacket * QuerySet :=
  fun query_set =>
    let tx_frame := TxPacket_init address in
    let tx_frame :=
      with_payload tx_frame (VarConvert.add_string (tx_payload tx_frame) command) in
    match query p tx_frame timeout query_set with
    | (Ok rx_frame, query_set') =>
        match echo_packet rx_frame with
        | Some _ => (Returned rx_frame, query_set')
        | None => (ComCommandException AttributeError, query_set')
        end
    | (Raise e, query_set') => (ComCommandException e, query_set')
    end.

Definition set_command (p : Port) (address : Z) (command : str) (value : Z)
           (timeout : Z) : QuerySet -> cmd_outcome RxPacket * QuerySet :=
  fun query_set =>
    let tx_frame := TxPacket_init address in
    let tx_frame :=
      with_payload tx_frame
        (VarConvert.add_string (tx_payload tx_frame) (command ++ str_of_int value)) in
    match set p tx_frame timeout query_set with
    | (Ok rx_frame, query_set') => (Returned rx_frame, query_set')
    | (Raise e, query_set') => (ComCommandException e, query_set')
    end.

(** ** mn100.py: MN100.set_velocity

    It sets the velocity with the command "V" and a timeout of 5000 ms,
    reads the payload of the answer and raises NotImplementedError. *)

Inductive mn100_outcome (A : Type) : Type :=
| Done (a : A)
| Raises_ComCommandException (cause : exn)
| Raises_AttributeError
| Raises_NotImplementedError.
Arguments Done {A} a.
Arguments Raises_ComCommandException {A} cause.
Arguments Raises_AttributeError {A}.
Arguments Raises_NotImplementedError {A}.

Definition set_velocity (p : Port) (address : Z) (velocity : Z)
  : QuerySet -> mn100_outcome unit * QuerySet :=
  fun query_set =>
    match set_command p address (str_of_string "V") velocity 5000 query_set with
    | (Returned rsp, query_set') =>
        match data_packet rsp with
        | Some _ => (Raises_NotImplementedError, query_set')
        | None => (Raises_AttributeError, query_set')
        end
    | (ComCommandException cause, query_set') =>
        (Raises_ComCommandException cause, query_set')
    end.


(** * Properties *)

(** ** Lists, slices and bit masks *)

Lemma fold_left_add_acc (l : list Z) (acc : Z) :
  fold_left (fun checksum byte => checksum + byte) l acc
  = acc + fold_right Z.add 0 l.
Proof.
  revert acc; induction l as [|b l IH]; intro acc; simpl.
  - lia.
  - rewrite IH. lia.
Qed.

Lemma scan_step (rx_stream : bytes) (address : Z) (i : nat) :
  scan rx_stream address i =
  match nth_error rx_stream i with
  | None => Raise IndexError
  | Some b => if negb (b =? address) then scan rx_stream address (S i) else Ok i
  end.
Proof.
  rewrite scan_equation_1 at 1. unfold inspect.
  assert (G : forall o (H : nth_error rx_stream i = o),
             scan_unfold_clause_1 rx_stream address i (exist _ o H) =
             match o with
             | None => Raise IndexError
             | Some b =>
                 if negb (b =? address) then scan rx_stream address (S i) else Ok i
             end).
  { intros [b|] H; simpl; reflexivity. }
  apply G.
Qed.

Lemma land_0x7F_mod (x : Z) : Z.land x 0x7F = x mod 128.
Proof.
  change 0x7F with (Z.ones 7). rewrite Z.land_ones by lia. reflexivity.
Qed.

Lemma scan_in_buffer (rx_stream : bytes) (address : Z) (i k : nat) :
  scan rx_stream address i = Ok k ->
  (i <= k < List.length rx_stream)%nat /\ nth_error rx_stream k = Some address.
Proof.
  remember (List.length rx_stream - i)%nat as n eqn:Hn.
  revert i Hn. induction n as [|n IH]; intros i Hn Hs; rewrite scan_step in Hs.
  - destruct (nth_error rx_stream i) as [b|] eqn:E; [|discriminate].
    assert (i < List.length rx_stream)%nat by (apply nth_error_Some; congruence).
    lia.
  - destruct (nth_error rx_stream i) as [b|] eqn:E; [|discriminate].
    assert (i < List.length rx_stream)%nat by (apply nth_error_Some; congruence).
    destruct (b =? address) eqn:Eb; simpl in Hs.
    + injection Hs as <-. apply Z.eqb_eq in Eb. subst b. split; [lia|assumption].
    + destruct (IH (S i)) as [Hk Hnth]; [lia|assumption|]. split; [lia|assumption].
Qed.

Lemma scan_exhausts (rx_stream : bytes) (address : Z) (i : nat) :
  (forall j, (i <= j)%nat -> nth_error rx_stream j <> Some address) ->
  scan rx_stream address i = Raise IndexError.
Proof.
  intro Hno.
  destruct (scan rx_stream address i) as [k|e] eqn:Hs.
  - apply scan_in_buffer in Hs. destruct Hs as [Hk Hnth].
    exfalso. apply (Hno k); [lia|assumption].
  - remember (List.length rx_stream - i)%nat as n eqn:Hn.
    revert i Hn Hno Hs. induction n as [|n IH]; intros i Hn Hno Hs;
      rewrite scan_step in Hs.
    + destruct (nth_error rx_stream i) as [b|] eqn:E; [|congruence].
      assert (i < List.length rx_stream)%nat by (apply nth_error_Some; congruence).
      lia.
    + destruct (nth_error rx_stream i) as [b|] eqn:E; [|congruence].
      destruct (b =? address) eqn:Eb; simpl in Hs; [discriminate|].
      apply (IH (S i)); [|intros j Hj; apply Hno; lia|assumption].
      assert (i < List.length rx_stream)%nat by (apply nth_error_Some; congruence).
      lia.
Qed.

Lemma scan_finds_first (rx_stream : bytes) (address : Z) (i k : nat) :
  (i <= k)%nat ->
  nth_error rx_stream k = Some address ->
  (forall j, (i <= j < k)%nat -> nth_error rx_stream j <> Some address) ->
  scan rx_stream address i = Ok k.
Proof.
  intros Hik Hk Hfirst.
  remember (k - i)%nat as n eqn:Hn.
  revert i Hn Hik Hfirst. induction n as [|n IH]; intros i Hn Hik Hfirst;
    rewrite scan_step.
  - assert (i = k) by lia. subst i. rewrite Hk, Z.eqb_refl. reflexivity.
  - destruct (nth_error rx_stream i) as [b|] eqn:E.
    + destruct (b =? address) eqn:Eb; simpl.
      * apply Z.eqb_eq in Eb. subst b. exfalso. apply (Hfirst i); [lia|assumption].
      * apply IH; [lia|lia|intros j Hj; apply Hfirst; lia].
    + exfalso. apply nth_error_None in E.
      assert (k < List.length rx_stream)%nat by (apply nth_error_Some; congruence).
      lia.
Qed.

(** ** The checksum *)

(** C7. For every finite sequence the codec's checksum is the unbounded sum
    of the values of the protected region, masked with 0x7F; it lies in
    0..127 and no bit from the eighth on (the high bit that marks an address
    byte included) is set in it. *)
Theorem calc_checksum_is_masked_sum (frame : list Z) :
  _calc_checksum frame = checksum_spec frame
  /\ 0 <= _calc_checksum frame <= 127
  /\ (forall n, 7 <= n -> Z.testbit (_calc_checksum frame) n = false).
Proof.
  unfold _calc_checksum, checksum_spec, region_sum.
  rewrite fold_left_add_acc, Z.add_0_l.
  split; [reflexivity|]. split.
  - rewrite land_0x7F_mod.
    pose proof (Z.mod_pos_bound (fold_right Z.add 0 frame) 128 ltac:(lia)). lia.
  - intros n Hn. rewrite Z.land_spec.
    change 0x7F with (Z.ones 7). rewrite (Z.ones_spec_high 7 n) by lia.
    apply andb_false_r.
Qed.

(** ** Decoding *)

Lemma getitem_Ok (b : bytes) (i : nat) (x : Z) :
  getitem b i = Ok x <-> nth_error b i = Some x.
Proof.
  unfold getitem. destruct (nth_error b i); split; congruence.
Qed.

Lemma getitem_beyond (b : bytes) (i : nat) :
  (List.length b <= i)%nat -> getitem b i = Raise IndexError.
Proof.
  intro H. unfold getitem. apply nth_error_None in H. rewrite H. reflexivity.
Qed.

Lemma not_in_skipn (b : bytes) (x : Z) (lo : nat) :
  ~ In x (skipn lo b) ->
  forall j, (lo <= j)%nat -> nth_error b j <> Some x.
Proof.
  intros Hnot j Hj Hnth. apply Hnot.
  apply (nth_error_In _ (j - lo)). rewrite nth_error_skipn.
  replace (lo + (j - lo))%nat with j by lia. assumption.
Qed.

Lemma not_in_slice (b : bytes) (x : Z) (lo hi : nat) :
  ~ In x (slice b lo hi) ->
  forall j, (lo <= j < hi)%nat -> nth_error b j <> Some x.
Proof.
  intros Hnot j Hj Hnth. apply Hnot. unfold slice.
  apply (nth_error_In _ (j - lo)). rewrite nth_error_firstn.
  destruct (Nat.ltb_spec (j - lo) (hi - lo)); [|lia].
  rewrite nth_error_skipn.
  replace (lo + (j - lo))%nat with j by lia. assumption.
Qed.

Lemma decode_frame_Ok (rx_frame : RxPacket) (rx_stream : bytes) (rx : RxPacket) :
  _decode_frame rx_frame rx_stream = Ok rx ->
  exists echo data,
    _decode_echo rx_stream = Ok echo /\ _decode_data rx_stream = Ok data
    /\ rx = {| echo_packet := Some echo; data_packet := Some data |}.
Proof.
  unfold _decode_frame. intro H.
  destruct (_decode_echo rx_stream) as [echo|e]; simpl in H; [|discriminate].
  destruct (_decode_data rx_stream) as [data|e]; simpl in H; [|discriminate].
  exists echo, data. repeat split. congruence.
Qed.

(** C5, as the code has it.  [_decode_frame] reads a data section whether or
    not bytes remain at offset 5: on every 5-byte stream that is a valid,
    checksum-correct echo section with a known status code, [rx_stream[5]]
    raises IndexError, so the decode yields no response at all. *)
Theorem decode_frame_echo_only_raises
        (rx_frame : RxPacket) (rx_stream : bytes) (echo : EchoPacket) :
  List.length rx_stream = 5%nat ->
  _decode_echo rx_stream = Ok echo ->
  _decode_data rx_stream = Raise IndexError
  /\ _decode_frame rx_frame rx_stream = Raise IndexError.
Proof.
  intros Hlen Hecho.
  assert (Hdata : _decode_data rx_stream = Raise IndexError).
  { unfold _decode_data. rewrite getitem_beyond by lia. reflexivity. }
  split; [assumption|].
  unfold _decode_frame. rewrite Hecho, Hdata. reflexivity.
Qed.

Lemma decode_frame_echo_only_raises_witness :
  List.length echo_only_stream = 5%nat
  /\ _decode_echo echo_only_stream
     = Ok {| echo_address := 129; echo_command := 69;
             echo_return_code := COMMAND_FINISHED |}
  /\ _decode_data echo_only_stream = Raise IndexError
  /\ _decode_frame RxPacket_init echo_only_stream = Raise IndexError.
Proof.
  split; [reflexivity|]. split; [reflexivity|].
  apply (decode_frame_echo_only_raises RxPacket_init echo_only_stream
           {| echo_address := 129; echo_command := 69;
              echo_return_code := COMMAND_FINISHED |});
    reflexivity.
Defined.

(** C5, as the claim has it, fails on [echo_only_stream]: five bytes, a
    valid echo section, and the decode raises instead of returning the echo
    section with no data section. *)
Lemma decode_frame_echo_only_counterexample :
  List.length echo_only_stream = 5%nat
  /\ _decode_echo echo_only_stream
     = Ok {| echo_address := 129; echo_command := 69;
             echo_return_code := COMMAND_FINISHED |}
  /\ _decode_frame RxPacket_init echo_only_stream
     <> Ok {| echo_packet := Some {| echo_address := 129; echo_command := 69;
                                     echo_return_code := COMMAND_FINISHED |};
              data_packet := None |}
  /\ _decode_frame RxPacket_init echo_only_stream = Raise IndexError.
Proof.
  vm_compute. repeat split; try reflexivity. discriminate.
Qed.



(** C9. In a stream whose echo section is sound, let [i >= 7] be the index
    of the first byte equal to the address byte at offset 5 (no byte of
    [rx_stream[7:i]] equals it).  The trailer the decoder compares with the
    checksum of [rx_stream[5:i+1]] is [rx_stream[i+1]]; when that checksum is
    right the decoded payload is exactly [rx_stream[7:i]], and when it is
    wrong the decoder raises with both values. *)
Theorem decode_data_recovers_payload
        (rx_frame : RxPacket) (rx_stream : bytes) (echo : EchoPacket)
        (address command trailer : Z) (i : nat) :
  _decode_echo rx_stream = Ok echo ->
  getitem rx_stream 5 = Ok address ->
  getitem rx_stream 6 = Ok command ->
  (7 <= i)%nat ->
  getitem rx_stream i = Ok address ->
  ~ In address (slice rx_stream 7 i) ->
  getitem rx_stream (i + 1) = Ok trailer ->
  scan rx_stream address 7 = Ok i
  /\ (trailer = _calc_checksum (slice rx_stream 5 (i + 1)) ->
      _decode_data rx_stream
      = Ok {| data_address := address; data_command := command;
              data_parameter := 0; data_payload := slice rx_stream 7 i |}
      /\ _decode_frame rx_frame rx_stream
         = Ok {| echo_packet := Some echo;
                 data_packet :=
                   Some {| data_address := address; data_command := command;
                           data_parameter := 0;
                           data_payload := slice rx_stream 7 i |} |})
  /\ (trailer <> _calc_checksum (slice rx_stream 5 (i + 1)) ->
      _decode_data rx_stream
      = Raise (ChecksumException DataSection
                 (_calc_checksum (slice rx_stream 5 (i + 1))) trailer)).
Proof.
  intros Hecho H5 H6 Hi Hterm Hpayload Htrailer.
  assert (Hscan : scan rx_stream address 7 = Ok i).
  { apply scan_finds_first; [assumption|apply getitem_Ok; assumption|].
    apply not_in_slice. assumption. }
  split; [assumption|]. split.
  - intro Hsum.
    assert (Hdata : _decode_data rx_stream
                    = Ok {| data_address := address; data_command := command;
                            data_parameter := 0;
                            data_payload := slice rx_stream 7 i |}).
    { unfold _decode_data. rewrite H5, H6. simpl. rewrite Hscan. simpl.
      rewrite Htrailer. simpl. rewrite <- Hsum, Z.eqb_refl. reflexivity. }
    split; [assumption|].
    unfold _decode_frame. rewrite Hecho, Hdata. reflexivity.
  - intro Hsum. unfold _decode_data. rewrite H5, H6. simpl. rewrite Hscan. simpl.
    rewrite Htrailer. simpl.
    destruct (Z.eqb_spec (_calc_checksum (slice rx_stream 5 (i + 1))) trailer);
      [congruence|reflexivity].
Qed.

Lemma decode_data_recovers_payload_witness :
  _decode_frame RxPacket_init echo_and_data_stream
  = Ok {| echo_packet :=
            Some {| echo_address := 129; echo_command := 69;
                    echo_return_code := COMMAND_FINISHED |};
          data_packet :=
            Some {| data_address := 129; data_command := 69;
                    data_parameter := 0; data_payload := [49; 50] |} |}.
Proof.
  assert (Hnot : ~ In 129 (slice echo_and_data_stream 7 9)).
  { simpl. intros [H|[H|[]]]; discriminate. }
  destruct (decode_data_recovers_payload RxPacket_init echo_and_data_stream
              {| echo_address := 129; echo_command := 69;
                 echo_return_code := COMMAND_FINISHED |}
              129 69 42 9
              eq_refl eq_refl eq_refl ltac:(lia) eq_refl Hnot eq_refl)
    as (_ & Hgood & _).
  destruct (Hgood eq_refl) as [_ Hframe]. exact Hframe.
Defined.

(** ** Encoding *)

Lemma calc_checksum_range (frame : list Z) : 0 <= _calc_checksum frame <= 127.
Proof.
  unfold _calc_checksum. rewrite land_0x7F_mod.
  pose proof (Z.mod_pos_bound
                (fold_left (fun checksum byte => checksum + byte) frame 0) 128
                ltac:(lia)).
  lia.
Qed.

Lemma address_byte_range (a : Z) : 0 <= a < 256 -> 128 <= Z.lor a 0x80 < 256.
Proof.
  intro Ha. split.
  - assert (Hbit : Z.testbit (Z.lor a 0x80) 7 = true).
    { rewrite Z.lor_spec. change (Z.testbit 0x80 7) with true. apply orb_true_r. }
    assert (Hnn : 0 <= Z.lor a 0x80) by (apply Z.lor_nonneg; lia).
    destruct (Z.lt_ge_cases (Z.lor a 0x80) 128) as [Hlt|]; [|assumption].
    rewrite (Z.bits_above_log2 (Z.lor a 0x80) 7) in Hbit; [discriminate|lia|].
    destruct (Z.eq_dec (Z.lor a 0x80) 0) as [E|E]; [rewrite E; simpl; lia|].
    apply Z.log2_lt_pow2; lia.
  - assert (Hlog : Z.log2 (Z.lor a 0x80) < 8).
    { rewrite Z.log2_lor by lia. change (Z.log2 0x80) with 7.
      destruct (Z.eq_dec a 0) as [->|Hz]; [simpl; lia|].
      assert (Z.log2 a < 8) by (apply Z.log2_lt_pow2; lia). lia. }
    apply Z.log2_lt_pow2 in Hlog; [simpl in Hlog; lia|].
    assert (0 <= Z.lor a 0x80) by (apply Z.lor_nonneg; lia).
    destruct (Z.eq_dec (Z.lor a 0x80) 0) as [E|E]; [|lia].
    exfalso. apply Z.lor_eq_0_iff in E. lia.
Qed.

Lemma fold_left_append_ord (p : str) (acc : list Z) :
  fold_left (fun tx_stream ascii_char => tx_stream ++ [ord ascii_char]) p acc
  = acc ++ map ord p.
Proof.
  revert acc; induction p as [|c p IH]; intro acc; simpl.
  - symmetry. apply app_nil_r.
  - rewrite IH, <- app_assoc. reflexivity.
Qed.

Lemma build_tx_stream_eq (tx_frame : TxPacket) :
  build_tx_stream tx_frame =
  let a := Z.lor (tx_address tx_frame) 0x80 in
  let protected := [a] ++ map ord (tx_payload tx_frame) ++ [a] in
  (protected ++ [_calc_checksum protected], _calc_checksum protected).
Proof.
  unfold build_tx_stream, VarConvert.add_address, VarConvert.add_uint8.
  rewrite fold_left_append_ord. simpl. rewrite <- app_assoc. reflexivity.
Qed.

Lemma ascii_in_range (p : str) : is_ascii p -> forallb in_range_256 (map ord p) = true.
Proof.
  unfold is_ascii, ord. intro H. rewrite map_id. apply forallb_forall.
  rewrite Forall_forall in H. intros c Hc. specialize (H c Hc).
  unfold in_range_256. apply andb_true_iff. split; [apply Z.leb_le|apply Z.ltb_lt]; lia.
Qed.

Lemma wire_in_range (tx_frame : TxPacket) :
  0 <= tx_address tx_frame < 256 ->
  is_ascii (tx_payload tx_frame) ->
  bytes_ctor (fst (build_tx_stream tx_frame)) = Ok (fst (build_tx_stream tx_frame)).
Proof.
  intros Ha Hp. unfold bytes_ctor.
  replace (forallb in_range_256 (fst (build_tx_stream tx_frame))) with true;
    [reflexivity|].
  symmetry. rewrite build_tx_stream_eq. cbv zeta. unfold fst.
  pose proof (address_byte_range _ Ha) as Hb.
  assert (Hab : in_range_256 (Z.lor (tx_address tx_frame) 0x80) = true).
  { unfold in_range_256. apply andb_true_iff.
    split; [apply Z.leb_le|apply Z.ltb_lt]; lia. }
  rewrite !forallb_app. simpl. rewrite Hab, (ascii_in_range _ Hp). simpl.
  rewrite andb_true_r. unfold in_range_256. apply andb_true_iff.
  match goal with |- context [_calc_checksum ?f] =>
    pose proof (calc_checksum_range f) end.
  split; [apply Z.leb_le|apply Z.ltb_lt]; lia.
Qed.

(** C8. For a request whose address fits a byte (the protocol's 0..127
    included) and whose payload is ASCII, [send_frame] hands [send_string]
    exactly: the address with its high bit set, the code points of the
    payload, that address byte again, and the checksum of those bytes.
    Building the frame does not raise; the call ends as the port's write
    ends, and the checksum is kept in [tx_checksum]. *)
Theorem send_frame_wire_format
        (p : Port) (tx_frame : TxPacket) (self : Frame) :
  0 <= tx_address tx_frame < 256 ->
  is_ascii (tx_payload tx_frame) ->
  let a := Z.lor (tx_address tx_frame) 0x80 in
  let protected := [a] ++ map ord (tx_payload tx_frame) ++ [a] in
  let wire := protected ++ [_calc_checksum protected] in
  bytes_ctor (fst (build_tx_stream tx_frame)) = Ok wire
  /\ send_frame p tx_frame self
     = (match on_send_string p (List.length (sent (phy_com self))) wire with
        | Written => Ok tt
        | WriteRaises => Raise SerialException
        end,
        {| phy_com := {| sent := sent (phy_com self) ++ [wire];
                         reads := reads (phy_com self) |};
           tx_checksum := _calc_checksum protected |}).
Proof.
  intros Ha Hp a protected wire.
  pose proof (wire_in_range tx_frame Ha Hp) as Hwire.
  pose proof (build_tx_stream_eq tx_frame) as Hbuild. cbv zeta in Hbuild.
  fold a in Hbuild. fold protected in Hbuild. fold wire in Hbuild.
  rewrite Hbuild in Hwire. simpl fst in Hwire.
  split; [rewrite Hbuild; exact Hwire|].
  unfold send_frame. rewrite Hbuild.
  unfold mbind, set_tx_checksum, lift, on_phy_com, send_string. rewrite Hwire.
  simpl. destruct (on_send_string p _ wire); reflexivity.
Qed.

Lemma send_frame_wire_format_witness :
  send_frame silent request_E (Frame_init Interface_init)
  = (Ok tt, {| phy_com := {| sent := [[129; 69; 129; 71]]; reads := 0 |};
               tx_checksum := 71 |}).
Proof.
  apply (send_frame_wire_format silent request_E
           (Frame_init Interface_init)).
  - simpl. lia.
  - repeat constructor; simpl; lia.
Defined.

(** ** The transaction layer *)

(** The loop lets out nothing but what pyserial raised in a read. *)
Lemma read_loop_raises (p : Port) (n : nat) (timeout : Z) (e : exn) :
  forall clock k response_frame runtime_milliseconds,
    read_loop p n timeout clock k response_frame runtime_milliseconds = Raise e ->
    (e = SerialTimeoutException /\ exists k', on_read p n k' = ReadTimesOut)
    \/ e = SerialException.
Proof.
  induction clock as [|now clock IH]; intros k response_frame runtime H;
    simpl in H; unfold _read in H;
    (destruct (runtime <? timeout); [|discriminate]);
    destruct (on_read p n k) as [b| | |] eqn:Ek;
    try (destruct (runtime >=? timeout));
    try discriminate;
    try (injection H as <-; left; split; [reflexivity|]; exists k; assumption);
    try (injection H as <-; right; reflexivity);
    apply IH in H; assumption.
Qed.

Lemma gathered_raises (p : Port) (n : nat) (timeout : Z) (e : exn) :
  gathered p n timeout = Raise e ->
  (e = ResponseTimeout /\ exists k, on_read p n k = ReadTimesOut)
  \/ e = ResponseException.
Proof.
  unfold gathered. intro H.
  destruct (read_loop p n timeout (clock_ms p n) 0 [] 0) as [b|e'] eqn:E;
    [discriminate|].
  apply read_loop_raises in E.
  destruct E as [[-> Hk]| ->]; injection H as <-; [left|right]; auto.
Qed.

(** On a port that never delivers a byte the loop ends with what it had:
    the reads that time out are swallowed, no ResponseTimeout comes out. *)
Lemma read_loop_no_byte (p : Port) (n : nat) (timeout : Z) :
  (forall k, on_read p n k = NoByte) ->
  forall clock k response_frame runtime_milliseconds,
    read_loop p n timeout clock k response_frame runtime_milliseconds
    = Ok response_frame.
Proof.
  intro Hsilent.
  induction clock as [|now clock IH]; intros k response_frame runtime; simpl;
    unfold _read; rewrite Hsilent;
    destruct (runtime <? timeout); try reflexivity;
    destruct (runtime >=? timeout); try reflexivity.
  apply IH.
Qed.

Lemma gathered_no_byte (p : Port) (n : nat) (timeout : Z) :
  (forall k, on_read p n k = NoByte) -> gathered p n timeout = Ok [].
Proof.
  intro Hsilent. unfold gathered.
  rewrite (read_loop_no_byte p n timeout Hsilent). reflexivity.
Qed.

Lemma attempt_run (p : Port) (tx_frame : TxPacket) (timeout : Z) (self : QuerySet) :
  attempt p tx_frame timeout self =
  match bytes_ctor (fst (build_tx_stream tx_frame)) with
  | Raise e => (Raise e, stored (snd (build_tx_stream tx_frame)) self)
  | Ok wire =>
      let self1 := wrote wire (stored (snd (build_tx_stream tx_frame)) self) in
      match on_send_string p (List.length (sent (phy_com (me_frame self)))) wire with
      | WriteRaises => (Raise SerialException, self1)
      | Written =>
          match gathered p (reads (phy_com (me_frame self))) timeout with
          | Ok rx_stream => (_decode_frame RxPacket_init rx_stream, did_read self1)
          | Raise e => (Raise e, did_read self1)
          end
      end
  end.
Proof.
  unfold attempt, send_frame, receive_frame_or_timeout.
  destruct (build_tx_stream tx_frame) as [tx_stream checksum]. simpl fst. simpl snd.
  unfold mbind, on_me_frame, set_tx_checksum, lift, on_phy_com, send_string,
    get_data_or_timeout, ret.
  destruct (bytes_ctor tx_stream) as [wire|e]; simpl; [|reflexivity].
  destruct (on_send_string p _ wire); simpl; [|reflexivity].
  destruct (gathered p _ timeout) as [rx_stream|e]; simpl; [|reflexivity].
  destruct (_decode_frame RxPacket_init rx_stream); reflexivity.
Qed.

Lemma scan_raises (rx_stream : bytes) (address : Z) (i : nat) (e : exn) :
  scan rx_stream address i = Raise e -> e = IndexError.
Proof.
  remember (List.length rx_stream - i)%nat as n eqn:Hn.
  revert i Hn. induction n as [|n IH]; intros i Hn Hs; rewrite scan_step in Hs;
    destruct (nth_error rx_stream i) as [b|] eqn:E; try congruence;
    assert (i < List.length rx_stream)%nat by (apply nth_error_Some; congruence).
  - lia.
  - destruct (b =? address); simpl in Hs; [discriminate|].
    apply (IH (S i)); [lia|assumption].
Qed.

Lemma getitem_raises (b : bytes) (i : nat) (e : exn) :
  getitem b i = Raise e -> e = IndexError.
Proof.
  unfold getitem. destruct (nth_error b i); congruence.
Qed.

Lemma ReturnCode_of_raises (x : Z) (e : exn) :
  ReturnCode_of x = Raise e -> e = ValueError.
Proof.
  unfold ReturnCode_of. intro H.
  repeat (match type of H with
          | match ?x with _ => _ end = _ => destruct x
          end; try discriminate; try congruence).
Qed.

Ltac step_bind H :=
  match type of H with
  | bind ?r _ = Raise _ =>
      let E := fresh "E" in
      destruct r eqn:E; simpl in H
  end.

Ltac closes_raise :=
  subst;
  match goal with
  | H : Raise _ = Raise _ |- _ => injection H as <-
  end;
  first [reflexivity | discriminate].

Lemma decode_echo_raises (rx_stream : bytes) (e : exn) :
  _decode_echo rx_stream = Raise e -> decode_failure e = true.
Proof.
  unfold _decode_echo. intro H.
  step_bind H; [|apply getitem_raises in E; closes_raise].
  step_bind H; [|apply getitem_raises in E0; closes_raise].
  step_bind H; [|apply getitem_raises in E1; closes_raise].
  step_bind H; [|apply ReturnCode_of_raises in E2; closes_raise].
  step_bind H; [|apply getitem_raises in E3; closes_raise].
  destruct (negb _); [|discriminate]. injection H as <-. reflexivity.
Qed.

Lemma decode_data_raises (rx_stream : bytes) (e : exn) :
  _decode_data rx_stream = Raise e -> decode_failure e = true.
Proof.
  unfold _decode_data. intro H.
  step_bind H; [|apply getitem_raises in E; closes_raise].
  step_bind H; [|apply getitem_raises in E0; closes_raise].
  step_bind H; [|apply scan_raises in E1; closes_raise].
  step_bind H; [|apply getitem_raises in E2; closes_raise].
  destruct (negb _); [|discriminate]. injection H as <-. reflexivity.
Qed.

Lemma decode_frame_raises (rx_frame : RxPacket) (rx_stream : bytes) (e : exn) :
  _decode_frame rx_frame rx_stream = Raise e -> decode_failure e = true.
Proof.
  unfold _decode_frame. intro H.
  step_bind H; [|injection H as <-; apply (decode_echo_raises rx_stream); assumption].
  step_bind H; [|injection H as <-; apply (decode_data_raises rx_stream); assumption].
  discriminate.
Qed.

Lemma decode_failure_below (e : exn) :
  decode_failure e = true ->
  below_transaction_layer e = true /\ is_ResponseTimeout e = false
  /\ is_ServerException e = false.
Proof.
  destruct e; simpl; intro H; try discriminate; repeat split.
Qed.

Lemma bytes_ctor_raises (l : list Z) (e : exn) :
  bytes_ctor l = Raise e -> e = ValueError.
Proof.
  unfold bytes_ctor. destruct (forallb in_range_256 l); congruence.
Qed.

(** One attempt hands [send_string] at most one stream, leaves [is_ready]
    alone, and raises only what the codec or the interface raises. *)
Lemma attempt_effect (p : Port) (tx_frame : TxPacket) (timeout : Z) (self : QuerySet) :
  is_ready (snd (attempt p tx_frame timeout self)) = is_ready self
  /\ (sent_count self <= sent_count (snd (attempt p tx_frame timeout self))
      <= sent_count self + 1)%nat
  /\ (forall e, fst (attempt p tx_frame timeout self) = Raise e ->
                below_transaction_layer e = true).
Proof.
  rewrite attempt_run. unfold sent_count.
  destruct (bytes_ctor (fst (build_tx_stream tx_frame))) as [wire|e0] eqn:Eb.
  - cbv zeta.
    destruct (on_send_string p _ wire);
      [destruct (gathered p _ timeout) as [rx_stream|e1] eqn:Eg|];
      simpl; rewrite ?length_app; simpl;
      (split; [reflexivity|]; split; [lia|]); intros e He.
    + apply decode_frame_raises, decode_failure_below in He. tauto.
    + injection He as <-. apply gathered_raises in Eg.
      destruct Eg as [[-> _]| ->]; reflexivity.
    + injection He as <-. reflexivity.
  - simpl. split; [reflexivity|]. split; [lia|]. intros e He.
    injection He as <-. apply bytes_ctor_raises in Eb. subst. reflexivity.
Qed.

(** One turn of the [while] of local_query: the frame of a successful
    attempt is returned at once; ResponseTimeout goes round again unless it
    was the last trial; anything else is wrapped and raised. *)
Lemma local_query_loop_step
      (p : Port) (tx_frame : TxPacket) (timeout : Z) (rx_frame : RxPacket)
      (n : nat) (self : QuerySet) :
  local_query_loop p tx_frame timeout rx_frame (S n) self =
  match attempt p tx_frame timeout self with
  | (Ok rx, self') => (Ok rx, self')
  | (Raise e, self') =>
      if is_ResponseTimeout e
      then if (n =? 0)%nat
           then (Raise (GeneralException Msg_Timeout), self')
           else local_query_loop p tx_frame timeout rx_frame n self'
      else (Raise (GeneralException (Msg_Failed e)), self')
  end.
Proof.
  simpl. unfold try_except. fold (attempt p tx_frame timeout).
  pose proof (attempt_effect p tx_frame timeout self) as (_ & _ & Hbelow).
  destruct (attempt p tx_frame timeout self) as [[rx|e] self']; [reflexivity|].
  specialize (Hbelow e eq_refl).
  destruct e; try discriminate; try reflexivity.
  simpl. destruct (n =? 0)%nat; reflexivity.
Qed.

Lemma local_set_loop_step
      (p : Port) (tx_frame : TxPacket) (timeout : Z) (rx_frame : TxPacket)
      (n : nat) (self : QuerySet) :
  local_set_loop p tx_frame timeout rx_frame (S n) self =
  match attempt p tx_frame timeout self with
  | (Ok rx, self') => (Ok rx, self')
  | (Raise e, self') =>
      if is_ResponseTimeout e
      then if (n =? 0)%nat
           then (Raise (GeneralException Msg_Timeout), self')
           else local_set_loop p tx_frame timeout rx_frame n self'
      else (Raise (GeneralException (Msg_Failed e)), self')
  end.
Proof.
  simpl. unfold try_except. fold (attempt p tx_frame timeout).
  pose proof (attempt_effect p tx_frame timeout self) as (_ & _ & Hbelow).
  destruct (attempt p tx_frame timeout self) as [[rx|e] self']; [reflexivity|].
  specialize (Hbelow e eq_refl).
  destruct e; try discriminate; try reflexivity.
  simpl. destruct (n =? 0)%nat; reflexivity.
Qed.

(** The two loops differ in text only: same result, same state. *)
Lemma local_set_loop_as_query
      (p : Port) (tx_frame : TxPacket) (timeout : Z)
      (rx_set : TxPacket) (rx_query : RxPacket) (n : nat) :
  forall self,
    local_set_loop p tx_frame timeout rx_set (S n) self
    = local_query_loop p tx_frame timeout rx_query (S n) self.
Proof.
  induction n as [|n IH]; intro self;
    rewrite local_set_loop_step, local_query_loop_step;
    destruct (attempt p tx_frame timeout self) as [[rx|e] self'];
    try reflexivity; destruct (is_ResponseTimeout e); try reflexivity.
  simpl. apply IH.
Qed.

Lemma local_query_loop_effect
      (p : Port) (tx_frame : TxPacket) (timeout : Z) (rx_frame : RxPacket)
      (n : nat) :
  forall self,
    is_ready (snd (local_query_loop p tx_frame timeout rx_frame (S n) self))
    = is_ready self
    /\ (sent_count self
        <= sent_count (snd (local_query_loop p tx_frame timeout rx_frame (S n) self))
        <= sent_count self + S n)%nat
    /\ (forall e,
          fst (local_query_loop p tx_frame timeout rx_frame (S n) self) = Raise e ->
          transaction_failure e = true).
Proof.
  induction n as [|n IH]; intro self; rewrite local_query_loop_step;
    pose proof (attempt_effect p tx_frame timeout self) as (Hready & Hsent & Hbelow);
    destruct (attempt p tx_frame timeout self) as [[rx|e] self'];
    cbn [fst snd] in Hready, Hsent, Hbelow.
  - cbn [fst snd]. split; [assumption|]. split; [lia|]. intros; discriminate.
  - specialize (Hbelow e eq_refl).
    destruct (is_ResponseTimeout e) eqn:Et; cbn [Nat.eqb fst snd];
      (split; [assumption|]; split; [lia|]); intros e' He'; injection He' as <-;
      cbn [transaction_failure]; rewrite ?Hbelow, ?Et; reflexivity.
  - cbn [fst snd]. split; [assumption|]. split; [lia|]. intros; discriminate.
  - specialize (Hbelow e eq_refl).
    destruct (is_ResponseTimeout e) eqn:Et; cbn [Nat.eqb].
    + destruct (IH self') as (Hready' & Hsent' & Hfail').
      split; [congruence|]. split; [|assumption].
      remember (sent_count (snd (local_query_loop p tx_frame timeout rx_frame
                                   (S n) self'))) as c.
      clear - Hsent Hsent'. lia.
    + cbn [fst snd]. split; [assumption|]. split; [lia|].
      intros e' He'; injection He' as <-.
      cbn [transaction_failure]; rewrite ?Hbelow, ?Et; reflexivity.
Qed.

Lemma query_run (p : Port) (tx_frame : TxPacket) (timeout : Z) (self : QuerySet) :
  query p tx_frame timeout self =
  match local_query p tx_frame timeout self with
  | (Ok rx, self') => (Ok rx, self')
  | (Raise e, self') =>
      if is_ServerException e then (Raise e, self')
      else if is_GeneralException e
           then (Raise e, {| me_frame := me_frame self'; is_ready := false |})
           else (Raise e, self')
  end.
Proof.
  unfold query, check_if_connected, mbind, ret, try_except.
  destruct (local_query p tx_frame timeout self) as [[rx|e] self']; [reflexivity|].
  destruct (is_ServerException e); [reflexivity|].
  destruct (is_GeneralException e); reflexivity.
Qed.

Lemma set_run (p : Port) (tx_frame : TxPacket) (timeout : Z) (self : QuerySet) :
  set p tx_frame timeout self =
  match local_set p tx_frame timeout self with
  | (Ok rx, self') => (Ok rx, self')
  | (Raise e, self') =>
      if is_ServerException e then (Raise e, self')
      else if is_GeneralException e
           then (Raise e, {| me_frame := me_frame self'; is_ready := false |})
           else (Raise e, self')
  end.
Proof.
  unfold set, check_if_connected, mbind, ret, try_except.
  destruct (local_set p tx_frame timeout self) as [[rx|e] self']; [reflexivity|].
  destruct (is_ServerException e); [reflexivity|].
  destruct (is_GeneralException e); reflexivity.
Qed.

Lemma local_set_as_query (p : Port) (tx_frame : TxPacket) (timeout : Z) (self : QuerySet) :
  local_set p tx_frame timeout self = local_query p tx_frame timeout self.
Proof.
  unfold local_set, local_query. apply local_set_loop_as_query.
Qed.

Lemma set_as_query (p : Port) (tx_frame : TxPacket) (timeout : Z) (self : QuerySet) :
  set p tx_frame timeout self = query p tx_frame timeout self.
Proof.
  rewrite set_run, query_run, local_set_as_query. reflexivity.
Qed.

Lemma transaction_failure_general (e : exn) :
  transaction_failure e = true ->
  is_ServerException e = false /\ is_GeneralException e = true
  /\ (forall received expected,
         e <> GeneralException (Msg_WrongAddress received expected)).
Proof.
  destruct e as [| | | | | | | | | |m]; simpl; try discriminate.
  destruct m; try discriminate; intros _; repeat split; discriminate.
Qed.

(** What a query does, in one statement: it returns a frame and leaves
    [is_ready] alone, or raises a transaction failure and clears [is_ready];
    it hands [send_string] at most three streams. *)
Lemma query_effect (p : Port) (tx_frame : TxPacket) (timeout : Z) (self : QuerySet) :
  (sent_count self <= sent_count (snd (query p tx_frame timeout self))
   <= sent_count self + 3)%nat
  /\ match fst (query p tx_frame timeout self) with
     | Ok _ => is_ready (snd (query p tx_frame timeout self)) = is_ready self
     | Raise e => transaction_failure e = true
                  /\ is_ready (snd (query p tx_frame timeout self)) = false
     end.
Proof.
  rewrite query_run. unfold local_query.
  pose proof (local_query_loop_effect p tx_frame timeout RxPacket_init 2 self)
    as (Hready & Hsent & Hfail).
  destruct (local_query_loop p tx_frame timeout RxPacket_init 3 self)
    as [[rx|e] self']; simpl in *.
  - split; [lia|assumption].
  - specialize (Hfail e eq_refl).
    destruct (transaction_failure_general e Hfail) as (Hs & Hg & _).
    rewrite Hs, Hg. unfold sent_count in *. simpl.
    split; [lia|]. split; [assumption|reflexivity].
Qed.

Lemma attempt_times_out
      (p : Port) (tx_frame : TxPacket) (timeout : Z) (self : QuerySet) (wire : bytes) :
  bytes_ctor (fst (build_tx_stream tx_frame)) = Ok wire ->
  on_send_string p (sent_count self) wire = Written ->
  gathered p (reads (phy_com (me_frame self))) timeout = Raise ResponseTimeout ->
  attempt p tx_frame timeout self
  = (Raise ResponseTimeout,
     did_read (wrote wire (stored (snd (build_tx_stream tx_frame)) self))).
Proof.
  intros Hwire Hsend Hread. rewrite attempt_run, Hwire. cbv zeta.
  unfold sent_count in Hsend. rewrite Hsend, Hread. reflexivity.
Qed.

Lemma attempt_receives
      (p : Port) (tx_frame : TxPacket) (timeout : Z) (self : QuerySet)
      (wire rx_stream : bytes) :
  bytes_ctor (fst (build_tx_stream tx_frame)) = Ok wire ->
  on_send_string p (sent_count self) wire = Written ->
  gathered p (reads (phy_com (me_frame self))) timeout = Ok rx_stream ->
  attempt p tx_frame timeout self
  = (_decode_frame RxPacket_init rx_stream,
     did_read (wrote wire (stored (snd (build_tx_stream tx_frame)) self))).
Proof.
  intros Hwire Hsend Hread. rewrite attempt_run, Hwire. cbv zeta.
  unfold sent_count in Hsend. rewrite Hsend, Hread. reflexivity.
Qed.

Lemma sends_of_counts (before after : QuerySet) (k : nat) :
  sent_count after = (sent_count before + k)%nat -> sends before after = k.
Proof.
  unfold sends, sent_count. lia.
Qed.

(** ** The retry budget *)

(** The loop of local_query does retry a ResponseTimeout.  When every write
    goes through and get_data_or_timeout raises ResponseTimeout in the first
    two attempts and returns a decodable stream in the third, the query
    returns the decoded frame after exactly three sends; when it raises
    ResponseTimeout every time, the query raises the timeout failure after
    exactly three sends. *)
Lemma response_timeout_is_retried
      (p : Port) (tx_frame : TxPacket) (timeout : Z) (self : QuerySet) (wire : bytes) :
  bytes_ctor (fst (build_tx_stream tx_frame)) = Ok wire ->
  (forall n, on_send_string p n wire = Written) ->
  (forall rx_stream rx,
      gathered p (reads (phy_com (me_frame self))) timeout = Raise ResponseTimeout ->
      gathered p (S (reads (phy_com (me_frame self)))) timeout = Raise ResponseTimeout ->
      gathered p (S (S (reads (phy_com (me_frame self))))) timeout = Ok rx_stream ->
      _decode_frame RxPacket_init rx_stream = Ok rx ->
      fst (query p tx_frame timeout self) = Ok rx
      /\ sends self (snd (query p tx_frame timeout self)) = 3%nat)
  /\ ((forall n, gathered p n timeout = Raise ResponseTimeout) ->
      fst (query p tx_frame timeout self) = Raise (GeneralException Msg_Timeout)
      /\ sends self (snd (query p tx_frame timeout self)) = 3%nat).
Proof.
  intros Hwire Hsend.
  pose (s1 := did_read (wrote wire (stored (snd (build_tx_stream tx_frame)) self))).
  pose (s2 := did_read (wrote wire (stored (snd (build_tx_stream tx_frame)) s1))).
  split.
  - intros rx_stream rx H1 H2 H3 Hdec.
    rewrite query_run. unfold local_query.
    rewrite local_query_loop_step,
      (attempt_times_out p tx_frame timeout self wire Hwire (Hsend _) H1).
    cbn [is_ResponseTimeout Nat.eqb]. fold s1.
    rewrite local_query_loop_step,
      (attempt_times_out p tx_frame timeout s1 wire Hwire (Hsend _) H2).
    cbn [is_ResponseTimeout Nat.eqb]. fold s2.
    rewrite local_query_loop_step,
      (attempt_receives p tx_frame timeout s2 wire rx_stream Hwire (Hsend _) H3).
    rewrite Hdec. cbn [fst snd]. split; [reflexivity|].
    apply sends_of_counts. unfold sent_count. simpl. rewrite !length_app. simpl. lia.
  - intros Hread.
    rewrite query_run. unfold local_query.
    rewrite local_query_loop_step,
      (attempt_times_out p tx_frame timeout self wire Hwire (Hsend _) (Hread _)).
    cbn [is_ResponseTimeout Nat.eqb]. fold s1.
    rewrite local_query_loop_step,
      (attempt_times_out p tx_frame timeout s1 wire Hwire (Hsend _) (Hread _)).
    cbn [is_ResponseTimeout Nat.eqb]. fold s2.
    rewrite local_query_loop_step,
      (attempt_times_out p tx_frame timeout s2 wire Hwire (Hsend _) (Hread _)).
    cbn [is_ResponseTimeout Nat.eqb is_ServerException is_GeneralException fst snd].
    split; [reflexivity|].
    apply sends_of_counts. unfold sent_count. simpl. rewrite !length_app. simpl. lia.
Qed.

(** A port on which nothing arrives ends the query in its first attempt:
    get_data_or_timeout returns the empty stream and decoding it raises. *)
Lemma no_byte_ends_query
      (p : Port) (tx_frame : TxPacket) (timeout : Z) (self : QuerySet) (wire : bytes) :
  bytes_ctor (fst (build_tx_stream tx_frame)) = Ok wire ->
  on_send_string p (sent_count self) wire = Written ->
  (forall k, on_read p (reads (phy_com (me_frame self))) k = NoByte) ->
  fst (query p tx_frame timeout self) = Raise (GeneralException (Msg_Failed IndexError))
  /\ sends self (snd (query p tx_frame timeout self)) = 1%nat.
Proof.
  intros Hwire Hsend Hsilent. rewrite query_run. unfold local_query.
  rewrite local_query_loop_step,
    (attempt_receives p tx_frame timeout self wire [] Hwire Hsend
       (gathered_no_byte p _ timeout Hsilent)).
  cbn [_decode_frame _decode_echo getitem nth_error bind is_ResponseTimeout
       is_ServerException is_GeneralException fst snd].
  split; [reflexivity|].
  apply sends_of_counts. unfold sent_count. simpl. rewrite length_app. reflexivity.
Qed.

(** C4, on the code.  No query hands [send_string] more than three streams.
    But a port on which nothing arrives does not make get_data_or_timeout
    raise ResponseTimeout: it returns the empty stream, decoding it raises
    IndexError, and the query gives up after its first send; so does a
    query that would have found a sound frame in its third attempt.  Only
    a SerialTimeoutException raised by pyserial within the read is retried. *)
Theorem query_gives_up_on_silent_port :
  (forall p tx_frame timeout self,
      (sends self (snd (query p tx_frame timeout self)) <= 3)%nat)
  /\ gathered silent 0 500 = Ok []
  /\ fst (query silent request_E 500 fresh)
     = Raise (GeneralException (Msg_Failed IndexError))
  /\ sends fresh (snd (query silent request_E 500 fresh)) = 1%nat
  /\ gathered (scripted [[]; []; arriving echo_and_data_stream]) 2 500
     = Ok echo_and_data_stream
  /\ fst (query (scripted [[]; []; arriving echo_and_data_stream])
            request_E 500 fresh)
     = Raise (GeneralException (Msg_Failed IndexError))
  /\ sends fresh
       (snd (query (scripted [[]; []; arriving echo_and_data_stream])
               request_E 500 fresh)) = 1%nat
  /\ fst (query (scripted [[ReadTimesOut]; [ReadTimesOut];
                           arriving echo_and_data_stream]) request_E 500 fresh)
     = Ok echo_and_data_frame
  /\ sends fresh
       (snd (query (scripted [[ReadTimesOut]; [ReadTimesOut];
                              arriving echo_and_data_stream]) request_E 500 fresh))
     = 3%nat.
Proof.
  split.
  - intros p tx_frame timeout self.
    pose proof (query_effect p tx_frame timeout self) as [Hsent _].
    unfold sends. fold (sent_count self).
    fold (sent_count (snd (query p tx_frame timeout self))). lia.
  - repeat split; vm_compute; reflexivity.
Qed.

(** ** What a query does with the first stream it receives *)

(** The frame decoded from the first stream is returned as it is: nothing
    in it (echoed address, status) is looked at. *)
Lemma first_frame_is_returned
      (p : Port) (tx_frame : TxPacket) (timeout : Z) (self : QuerySet)
      (wire rx_stream : bytes) (rx : RxPacket) :
  bytes_ctor (fst (build_tx_stream tx_frame)) = Ok wire ->
  on_send_string p (sent_count self) wire = Written ->
  gathered p (reads (phy_com (me_frame self))) timeout = Ok rx_stream ->
  _decode_frame RxPacket_init rx_stream = Ok rx ->
  query p tx_frame timeout self
  = (Ok rx, did_read (wrote wire (stored (snd (build_tx_stream tx_frame)) self))).
Proof.
  intros Hwire Hsend Hread Hdec. rewrite query_run. unfold local_query.
  rewrite local_query_loop_step,
    (attempt_receives p tx_frame timeout self wire rx_stream Hwire Hsend Hread), Hdec.
  reflexivity.
Qed.

(** A stream that does not decode ends the query on the spot, whatever the
    port would have delivered to a second attempt. *)
Lemma decode_failure_ends_query
      (p : Port) (tx_frame : TxPacket) (timeout : Z) (self : QuerySet)
      (wire rx_stream : bytes) (e : exn) :
  bytes_ctor (fst (build_tx_stream tx_frame)) = Ok wire ->
  on_send_string p (sent_count self) wire = Written ->
  gathered p (reads (phy_com (me_frame self))) timeout = Ok rx_stream ->
  _decode_frame RxPacket_init rx_stream = Raise e ->
  fst (query p tx_frame timeout self) = Raise (GeneralException (Msg_Failed e))
  /\ sends self (snd (query p tx_frame timeout self)) = 1%nat.
Proof.
  intros Hwire Hsend Hread Hdec. rewrite query_run. unfold local_query.
  rewrite local_query_loop_step,
    (attempt_receives p tx_frame timeout self wire rx_stream Hwire Hsend Hread), Hdec.
  destruct (decode_failure_below e (decode_frame_raises _ _ _ Hdec)) as (_ & Ht & _).
  rewrite Ht. cbn [is_ServerException is_GeneralException fst snd].
  split; [reflexivity|].
  apply sends_of_counts. unfold sent_count. simpl. rewrite length_app. reflexivity.
Qed.

(** C1, on the code.  Device 2 answers the request sent to device 1 with a
    sound frame: the query returns that frame after its single attempt.  No
    query and no set ever raises the wrong-address failure written below
    their loops, which are left only by [return] or [raise]. *)
Theorem query_returns_frame_of_other_device :
  tx_address request_E = 1
  /\ fst (query (scripted [arriving other_device_stream]) request_E 500 fresh)
     = Ok {| echo_packet :=
               Some {| echo_address := 130; echo_command := 69;
                       echo_return_code := COMMAND_FINISHED |};
             data_packet :=
               Some {| data_address := 130; data_command := 69;
                       data_parameter := 0; data_payload := [49; 50] |} |}
  /\ sends fresh
       (snd (query (scripted [arriving other_device_stream]) request_E 500 fresh))
     = 1%nat
  /\ (forall p tx_frame timeout self received expected,
        fst (query p tx_frame timeout self)
        <> Raise (GeneralException (Msg_WrongAddress received expected))
        /\ fst (set p tx_frame timeout self)
           <> Raise (GeneralException (Msg_WrongAddress received expected))).
Proof.
  split; [reflexivity|]. split; [vm_compute; reflexivity|].
  split; [vm_compute; reflexivity|].
  intros p tx_frame timeout self received expected. rewrite set_as_query.
  pose proof (query_effect p tx_frame timeout self) as [_ H].
  assert (G : fst (query p tx_frame timeout self)
              <> Raise (GeneralException (Msg_WrongAddress received expected))).
  { intro E. rewrite E in H. destruct H as [H _]. discriminate. }
  split; exact G.
Qed.

(** C2, on the code.  A sound frame whose status is INVALID_COMMAND is
    returned like any other frame.  No query and no set ever raises
    ServerException: nothing below them raises it and no status is
    inspected. *)
Theorem query_returns_frame_with_error_status :
  fst (query (scripted [arriving invalid_command_stream]) request_E 500 fresh)
  = Ok {| echo_packet :=
            Some {| echo_address := 129; echo_command := 69;
                    echo_return_code := INVALID_COMMAND |};
          data_packet :=
            Some {| data_address := 129; data_command := 69;
                    data_parameter := 0; data_payload := [49; 50] |} |}
  /\ (forall p tx_frame timeout self,
        fst (query p tx_frame timeout self) <> Raise ServerException
        /\ fst (set p tx_frame timeout self) <> Raise ServerException).
Proof.
  split; [vm_compute; reflexivity|].
  intros p tx_frame timeout self. rewrite set_as_query.
  pose proof (query_effect p tx_frame timeout self) as [_ H].
  assert (G : fst (query p tx_frame timeout self) <> Raise ServerException).
  { intro E. rewrite E in H. destruct H as [H _]. discriminate. }
  split; exact G.
Qed.

(** C3, on the code.  The first stream fails to decode (wrong checksum; cut
    short; unknown status) and every later attempt would have received a
    sound frame: the query raises after one send, without a second attempt.
    A ResponseTimeout raised by get_data_or_timeout in the same place is
    followed by a second attempt, which succeeds. *)
Theorem query_does_not_retry_decode_failure :
  (fst (query (scripted [arriving corrupted_stream;
                         arriving echo_and_data_stream]) request_E 500 fresh)
   = Raise (GeneralException (Msg_Failed (ChecksumException EchoSection 75 74)))
   /\ sends fresh
        (snd (query (scripted [arriving corrupted_stream;
                               arriving echo_and_data_stream]) request_E 500 fresh))
      = 1%nat)
  /\ (fst (query (scripted [arriving unterminated_stream;
                            arriving echo_and_data_stream]) request_E 500 fresh)
      = Raise (GeneralException (Msg_Failed IndexError))
      /\ sends fresh
           (snd (query (scripted [arriving unterminated_stream;
                                  arriving echo_and_data_stream])
                   request_E 500 fresh))
         = 1%nat)
  /\ (fst (query (scripted [arriving unknown_status_stream;
                            arriving echo_and_data_stream]) request_E 500 fresh)
      = Raise (GeneralException (Msg_Failed ValueError))
      /\ sends fresh
           (snd (query (scripted [arriving unknown_status_stream;
                                  arriving echo_and_data_stream])
                   request_E 500 fresh))
         = 1%nat)
  /\ (fst (query (scripted [[ReadTimesOut]; arriving echo_and_data_stream])
             request_E 500 fresh)
      = Ok echo_and_data_frame
      /\ sends fresh
           (snd (query (scripted [[ReadTimesOut]; arriving echo_and_data_stream])
                   request_E 500 fresh))
         = 2%nat).
Proof.
  repeat split; vm_compute; reflexivity.
Qed.

(** ** The readiness flag *)

Lemma run_call_is_ready (p : Port) (self : QuerySet) (c : call) :
  is_ready (run_call p self c) = true -> is_ready self = true.
Proof.
  destruct c as [tx timeout|tx timeout|tx timeout|tx timeout|]; unfold run_call.
  - pose proof (query_effect p tx timeout self) as [_ H].
    destruct (fst (query p tx timeout self)); [congruence|].
    destruct H as [_ H]. congruence.
  - rewrite set_as_query.
    pose proof (query_effect p tx timeout self) as [_ H].
    destruct (fst (query p tx timeout self)); [congruence|].
    destruct H as [_ H]. congruence.
  - unfold local_query.
    pose proof (local_query_loop_effect p tx timeout RxPacket_init 2 self)
      as (H & _). congruence.
  - rewrite local_set_as_query. unfold local_query.
    pose proof (local_query_loop_effect p tx timeout RxPacket_init 2 self)
      as (H & _). congruence.
  - simpl. trivial.
Qed.

(** C10. A new QuerySet is not ready.  A query or a set leaves [is_ready]
    as it was when it returns a frame (or raises ServerException) and clears
    it when it raises anything else; no call of the class turns it on.  So
    after any sequence of calls on a new QuerySet the flag is still off. *)
Theorem is_ready_stays_false (p : Port) :
  (forall interface, is_ready (QuerySet_init interface) = false)
  /\ (forall tx_frame timeout self,
        match fst (query p tx_frame timeout self) with
        | Ok _ => is_ready (snd (query p tx_frame timeout self)) = is_ready self
        | Raise e =>
            is_ready (snd (query p tx_frame timeout self))
            = if is_ServerException e then is_ready self else false
        end)
  /\ (forall tx_frame timeout self,
        match fst (set p tx_frame timeout self) with
        | Ok _ => is_ready (snd (set p tx_frame timeout self)) = is_ready self
        | Raise e =>
            is_ready (snd (set p tx_frame timeout self))
            = if is_ServerException e then is_ready self else false
        end)
  /\ (forall self c, is_ready (run_call p self c) = true -> is_ready self = true)
  /\ (forall interface calls,
        is_ready (run_calls p calls (QuerySet_init interface)) = false).
Proof.
  assert (Hq : forall tx_frame timeout self,
             match fst (query p tx_frame timeout self) with
             | Ok _ => is_ready (snd (query p tx_frame timeout self)) = is_ready self
             | Raise e =>
                 is_ready (snd (query p tx_frame timeout self))
                 = if is_ServerException e then is_ready self else false
             end).
  { intros tx_frame timeout self.
    pose proof (query_effect p tx_frame timeout self) as [_ H].
    destruct (fst (query p tx_frame timeout self)) as [rx|e]; [assumption|].
    destruct H as [Hf Hr].
    destruct (transaction_failure_general e Hf) as (Hs & _). rewrite Hs. assumption. }
  split; [reflexivity|]. split; [exact Hq|]. split.
  { intros tx_frame timeout self. rewrite set_as_query. apply Hq. }
  split; [apply run_call_is_ready|].
  intros interface calls. unfold run_calls.
  assert (G : forall self, is_ready self = false ->
                           is_ready (fold_left (run_call p) calls self) = false).
  { induction calls as [|c calls IH]; intros self Hself; simpl; [assumption|].
    apply IH. destruct (is_ready (run_call p self c)) eqn:E; [|reflexivity].
    apply run_call_is_ready in E. congruence. }
  apply G. reflexivity.
Qed.

(** * Further properties of the codec *)

Lemma ReturnCode_of_value (c : ReturnCode) :
  ReturnCode_of (ReturnCode_value c) = Ok c.
Proof.
  destruct c; reflexivity.
Qed.

Lemma ReturnCode_of_Ok (x : Z) (c : ReturnCode) :
  ReturnCode_of x = Ok c -> ReturnCode_value c = x.
Proof.
  unfold ReturnCode_of. intro H.
  repeat (match type of H with
          | match ?x with _ => _ end = _ => destruct x
          end; try discriminate);
    injection H as <-; reflexivity.
Qed.

(** X1. An echo section decodes to what it was built from: the address, the
    command and the status written as first, second and third byte, with any
    fourth byte, the checksum of those four as fifth and anything after it,
    give back that address, command and status. *)
Theorem decode_echo_round_trip
        (address command reserved : Z) (status : ReturnCode) (rest : bytes) :
  _decode_echo
    ([address; command; ReturnCode_value status; reserved;
      _calc_checksum [address; command; ReturnCode_value status; reserved]]
       ++ rest)
  = Ok {| echo_address := address; echo_command := command;
          echo_return_code := status |}.
Proof.
  unfold _decode_echo. cbn [app getitem nth_error bind].
  rewrite ReturnCode_of_value. cbn [bind].
  change (slice (address :: command :: ReturnCode_value status :: reserved
                   :: _calc_checksum [address; command; ReturnCode_value status;
                                      reserved] :: rest) 0 4)
    with [address; command; ReturnCode_value status; reserved].
  rewrite Z.eqb_refl. reflexivity.
Qed.



(** X3. A third byte that is the value of no ReturnCode makes the echo
    decode raise ValueError, whatever the checksum byte is; the status byte
    is looked up before the checksum is compared. *)
Theorem decode_echo_unknown_status (rx_stream : bytes) (raw : Z) :
  getitem rx_stream 2 = Ok raw ->
  (forall c, ReturnCode_value c <> raw) ->
  _decode_echo rx_stream = Raise ValueError.
Proof.
  intros H2 Hunknown. unfold _decode_echo.
  destruct rx_stream as [|b0 [|b1 [|b2 rest]]]; try discriminate H2.
  cbn [getitem nth_error bind] in *. injection H2 as ->.
  destruct (ReturnCode_of raw) as [c|e] eqn:E.
  - apply ReturnCode_of_Ok in E. exfalso. apply (Hunknown c E).
  - apply ReturnCode_of_raises in E. subst e. reflexivity.
Qed.

Lemma decode_echo_unknown_status_witness :
  _decode_echo unknown_status_stream = Raise ValueError.
Proof.
  apply (decode_echo_unknown_status unknown_status_stream 6).
  - reflexivity.
  - intro c. destruct c; simpl; lia.
Defined.

Lemma scan_skips (rx_stream : bytes) (address : Z) (i k : nat) :
  scan rx_stream address i = Ok k ->
  forall j, (i <= j < k)%nat -> nth_error rx_stream j <> Some address.
Proof.
  remember (List.length rx_stream - i)%nat as n eqn:Hn.
  revert i Hn. induction n as [|n IH]; intros i Hn Hs j Hj; rewrite scan_step in Hs;
    destruct (nth_error rx_stream i) as [b|] eqn:E; try discriminate;
    assert (i < List.length rx_stream)%nat by (apply nth_error_Some; congruence);
    try lia.
  destruct (b =? address) eqn:Eb; simpl in Hs.
  - injection Hs as <-. lia.
  - destruct (Nat.eq_dec j i) as [->|Hne].
    + rewrite E. intro Heq. injection Heq as ->. rewrite Z.eqb_refl in Eb.
      discriminate.
    + apply (IH (S i)); [lia|assumption|lia].
Qed.

Lemma in_slice (b : bytes) (x : Z) (lo hi : nat) :
  In x (slice b lo hi) ->
  exists j, (lo <= j < hi)%nat /\ nth_error b j = Some x.
Proof.
  unfold slice. intro H. apply In_nth_error in H. destruct H as [j Hj].
  rewrite nth_error_firstn in Hj.
  destruct (Nat.ltb_spec j (hi - lo)); [|discriminate].
  rewrite nth_error_skipn in Hj. exists (lo + j)%nat. split; [lia|assumption].
Qed.

Lemma slice_length (b : bytes) (lo hi : nat) :
  (hi <= List.length b)%nat -> List.length (slice b lo hi) = (hi - lo)%nat.
Proof.
  intro H. unfold slice. rewrite length_firstn, length_skipn. lia.
Qed.

(** What a successful [_decode_data] went through. *)
Lemma decode_data_Ok (rx_stream : bytes) (data : DataPacket) :
  _decode_data rx_stream = Ok data ->
  exists i,
    (7 <= i)%nat
    /\ getitem rx_stream 5 = Ok (data_address data)
    /\ getitem rx_stream 6 = Ok (data_command data)
    /\ scan rx_stream (data_address data) 7 = Ok i
    /\ getitem rx_stream (i + 1) = Ok (_calc_checksum (slice rx_stream 5 (i + 1)))
    /\ data_payload data = slice rx_stream 7 i
    /\ data_parameter data = 0.
Proof.
  unfold _decode_data. intro H.
  destruct (getitem rx_stream 5) as [address|] eqn:E5; [|discriminate].
  destruct (getitem rx_stream 6) as [command|] eqn:E6; [|discriminate].
  cbn [bind] in H.
  destruct (scan rx_stream address 7) as [i|] eqn:Es; [|discriminate].
  cbn [bind] in H.
  destruct (getitem rx_stream (i + 1)) as [actual|] eqn:Et; [|discriminate].
  cbn [bind] in H.
  destruct (Z.eqb_spec (_calc_checksum (slice rx_stream 5 (i + 1))) actual)
    as [Heq|Hne]; simpl in H; [|discriminate].
  injection H as <-. simpl. exists i.
  pose proof (scan_in_buffer _ _ _ _ Es) as [Hi _].
  repeat split; try assumption; try lia. rewrite Heq. assumption.
Qed.

(** X4. Whatever stream it is given, a data section that [_decode_data]
    returns has a payload free of the section's address byte; the payload is
    at least nine bytes shorter than the stream, and its address and command
    are the sixth and seventh byte of the stream. *)
Theorem decoded_payload_has_no_address_byte (rx_stream : bytes) (data : DataPacket) :
  _decode_data rx_stream = Ok data ->
  ~ In (data_address data) (data_payload data)
  /\ (List.length (data_payload data) + 9 <= List.length rx_stream)%nat
  /\ nth_error rx_stream 5 = Some (data_address data)
  /\ nth_error rx_stream 6 = Some (data_command data).
Proof.
  intro H. apply decode_data_Ok in H.
  destruct H as (i & Hi & H5 & H6 & Hs & Ht & Hp & _).
  pose proof (scan_skips _ _ _ _ Hs) as Hskip.
  apply getitem_Ok in H5, H6.
  assert (Hlen : (i + 1 < List.length rx_stream)%nat).
  { apply nth_error_Some. apply getitem_Ok in Ht. congruence. }
  repeat split; try assumption.
  - rewrite Hp. intro Hin. apply in_slice in Hin. destruct Hin as (j & Hj & Hnth).
    apply (Hskip j Hj Hnth).
  - rewrite Hp, slice_length by lia. lia.
Qed.

Lemma decoded_payload_has_no_address_byte_witness :
  _decode_data echo_and_data_stream
  = Ok {| data_address := 129; data_command := 69; data_parameter := 0;
          data_payload := [49; 50] |}
  /\ ~ In 129 [49; 50]
  /\ (List.length [49; 50] + 9 <= List.length echo_and_data_stream)%nat.
Proof.
  split; [reflexivity|].
  destruct (decoded_payload_has_no_address_byte echo_and_data_stream
              {| data_address := 129; data_command := 69; data_parameter := 0;
                 data_payload := [49; 50] |} eq_refl) as (Hnot & Hlen & _).
  split; [exact Hnot|exact Hlen].
Defined.

Lemma getitem_app (b rest : bytes) (i : nat) (x : Z) :
  getitem b i = Ok x -> getitem (b ++ rest) i = Ok x.
Proof.
  intro H. apply getitem_Ok in H. apply getitem_Ok.
  rewrite nth_error_app1; [assumption|]. apply nth_error_Some. congruence.
Qed.

Lemma slice_app (b rest : bytes) (lo hi : nat) :
  (hi <= List.length b)%nat -> slice (b ++ rest) lo hi = slice b lo hi.
Proof.
  intro H. unfold slice. rewrite skipn_app, firstn_app, length_skipn.
  replace (hi - lo - (List.length b - lo))%nat with 0%nat by lia.
  rewrite firstn_O. apply app_nil_r.
Qed.

Lemma scan_app (b rest : bytes) (address : Z) (i k : nat) :
  scan b address i = Ok k -> scan (b ++ rest) address i = Ok k.
Proof.
  intro H. pose proof (scan_in_buffer _ _ _ _ H) as [Hk Hnth].
  pose proof (scan_skips _ _ _ _ H) as Hskip.
  apply scan_finds_first; [lia| |].
  - rewrite nth_error_app1 by lia. assumption.
  - intros j Hj. rewrite nth_error_app1 by lia. apply Hskip. assumption.
Qed.

(** X5. Bytes that follow a stream which decodes change nothing: the stream
    with anything appended decodes to the same response. *)
Theorem decode_frame_ignores_trailing_bytes
        (rx_frame rx_frame' : RxPacket) (rx_stream rest : bytes) (rx : RxPacket) :
  _decode_frame rx_frame rx_stream = Ok rx ->
  _decode_frame rx_frame' (rx_stream ++ rest) = Ok rx.
Proof.
  intro H. apply decode_frame_Ok in H. destruct H as (echo & data & He & Hd & ->).
  assert (He' : _decode_echo (rx_stream ++ rest) = Ok echo).
  { unfold _decode_echo in *.
    destruct (getitem rx_stream 0) as [b0|] eqn:E0; [|discriminate].
    destruct (getitem rx_stream 1) as [b1|] eqn:E1; [|discriminate].
    destruct (getitem rx_stream 2) as [b2|] eqn:E2; [|discriminate].
    cbn [bind] in He.
    destruct (ReturnCode_of b2) as [c|] eqn:Ec; [|discriminate].
    cbn [bind] in He.
    destruct (getitem rx_stream 4) as [b4|] eqn:E4; [|discriminate].
    rewrite (getitem_app _ rest _ _ E0), (getitem_app _ rest _ _ E1),
      (getitem_app _ rest _ _ E2), (getitem_app _ rest _ _ E4).
    cbn [bind]. rewrite Ec. cbn [bind].
    rewrite slice_app; [exact He|].
    apply getitem_Ok in E4.
    assert (4 < List.length rx_stream)%nat by (apply nth_error_Some; congruence).
    lia. }
  assert (Hd' : _decode_data (rx_stream ++ rest) = Ok data).
  { pose proof (decode_data_Ok _ _ Hd) as (i & Hi & H5 & H6 & Hs & Ht & Hp & H0).
    assert (Hlen : (i + 1 < List.length rx_stream)%nat).
    { apply nth_error_Some. apply getitem_Ok in Ht. congruence. }
    unfold _decode_data.
    rewrite (getitem_app _ rest _ _ H5), (getitem_app _ rest _ _ H6). cbn [bind].
    rewrite (scan_app _ rest _ _ _ Hs). cbn [bind].
    rewrite !slice_app by lia.
    rewrite (getitem_app _ rest _ _ Ht). cbn [bind].
    rewrite Z.eqb_refl. simpl. rewrite <- Hp.
    destruct data as [a c q pl]. simpl in *. subst q. reflexivity. }
  unfold _decode_frame. rewrite He', Hd'. reflexivity.
Qed.

Lemma decode_frame_ignores_trailing_bytes_witness :
  _decode_frame RxPacket_init (echo_and_data_stream ++ [7; 129; 0])
  = Ok echo_and_data_frame.
Proof.
  apply (decode_frame_ignores_trailing_bytes RxPacket_init RxPacket_init
           echo_and_data_stream [7; 129; 0] echo_and_data_frame).
  reflexivity.
Defined.

(** ** The checksum as an error detector *)

Lemma calc_checksum_mod (frame : list Z) :
  _calc_checksum frame = (fold_right Z.add 0 frame) mod 128.
Proof.
  unfold _calc_checksum. rewrite fold_left_add_acc, land_0x7F_mod, Z.add_0_l.
  reflexivity.
Qed.

Lemma fold_right_add_app (l1 l2 : list Z) :
  fold_right Z.add 0 (l1 ++ l2) = fold_right Z.add 0 l1 + fold_right Z.add 0 l2.
Proof.
  induction l1 as [|b l1 IH]; simpl; [reflexivity|]. rewrite IH. lia.
Qed.

(** X6. Replacing one byte of a protected region by another leaves the
    checksum unchanged exactly when the two values differ by a multiple of
    128; for two different byte values (0..255) that is when they differ by
    128, that is in their high bit only.  Every other change of one byte
    changes the checksum. *)
Theorem checksum_single_byte_change (before after : list Z) (b b' : Z) :
  (_calc_checksum (before ++ b :: after) = _calc_checksum (before ++ b' :: after)
   <-> (b - b') mod 128 = 0)
  /\ (0 <= b < 256 -> 0 <= b' < 256 -> b <> b' ->
      (_calc_checksum (before ++ b :: after)
       = _calc_checksum (before ++ b' :: after)
       <-> (b' = b + 128 \/ b = b' + 128))).
Proof.
  assert (Hiff : _calc_checksum (before ++ b :: after)
                 = _calc_checksum (before ++ b' :: after)
                 <-> (b - b') mod 128 = 0).
  { rewrite !calc_checksum_mod, !fold_right_add_app. simpl.
    set (x := fold_right Z.add 0 before). set (y := fold_right Z.add 0 after).
    split; intro H.
    - replace (b - b') with ((x + (b + y)) - (x + (b' + y))) by lia.
      rewrite Zminus_mod, H, Z.sub_diag. reflexivity.
    - replace (x + (b + y)) with ((x + (b' + y)) + (b - b')) by lia.
      rewrite Zplus_mod, H, Z.add_0_r, Z.mod_mod by lia. reflexivity. }
  split; [exact Hiff|].
  intros Hb Hb' Hne. rewrite Hiff. split.
  - intro H. apply Z.mod_divide in H; [|lia]. destruct H as [q Hq].
    assert (q = 1 \/ q = -1) by lia. lia.
  - intros [->| ->].
    + replace (b - (b + 128)) with (-1 * 128) by lia. apply Z.mod_mul. lia.
    + replace (b' + 128 - b') with (1 * 128) by lia. apply Z.mod_mul. lia.
Qed.

Lemma checksum_single_byte_change_witness :
  _calc_checksum [129; 69; 5; 0] = _calc_checksum [129; 197; 5; 0]
  /\ _calc_checksum [129; 69; 5; 0] <> _calc_checksum [129; 70; 5; 0].
Proof.
  destruct (checksum_single_byte_change [129] [5; 0] 69 197) as [_ Hflip].
  destruct (checksum_single_byte_change [129] [5; 0] 69 70) as [_ Hother].
  split.
  - apply Hflip; lia.
  - intro H. apply Hother in H; lia.
Defined.

(** X7. The checksum does not see the order of the bytes: two regions that
    hold the same bytes in a different order have the same checksum. *)
Theorem checksum_ignores_order (frame frame' : list Z) :
  Permutation frame frame' -> _calc_checksum frame = _calc_checksum frame'.
Proof.
  intro H. rewrite !calc_checksum_mod. f_equal.
  induction H; simpl; lia.
Qed.

Lemma checksum_ignores_order_witness :
  _calc_checksum [129; 69; 5; 0] = _calc_checksum [69; 129; 5; 0].
Proof.
  apply checksum_ignores_order. apply perm_swap.
Defined.

(** ** A request read back as a data section *)

Lemma decode_data_built (prefix payload rest : bytes) (address command : Z) :
  List.length prefix = 5%nat ->
  ~ In address payload ->
  _decode_data
    (prefix ++ address :: command :: payload
       ++ address :: _calc_checksum (address :: command :: payload ++ [address])
       :: rest)
  = Ok {| data_address := address; data_command := command;
          data_parameter := 0; data_payload := payload |}.
Proof.
  intros Hlen Hnot.
  set (section := address :: command :: payload
                    ++ address
                    :: _calc_checksum (address :: command :: payload ++ [address])
                    :: rest).
  assert (Hnth : forall j, nth_error (prefix ++ section) (5 + j)
                           = nth_error section j).
  { intro j. rewrite nth_error_app2 by lia. f_equal. lia. }
  assert (Hpay : forall j, nth_error section (2 + j)
                           = nth_error (payload ++ address
                                          :: _calc_checksum
                                               (address :: command :: payload
                                                  ++ [address]) :: rest) j).
  { intro j. reflexivity. }
  set (i := (7 + List.length payload)%nat).
  assert (Hs : scan (prefix ++ section) address 7 = Ok i).
  { apply scan_finds_first; [unfold i; lia| |].
    - unfold i. replace (7 + List.length payload)%nat
        with (5 + (2 + List.length payload))%nat by lia.
      rewrite Hnth, Hpay, nth_error_app2 by lia.
      replace (List.length payload - List.length payload)%nat with 0%nat by lia.
      reflexivity.
    - intros j Hj Hin. apply Hnot.
      replace j with (5 + (2 + (j - 7)))%nat in Hin by lia.
      rewrite Hnth, Hpay, nth_error_app1 in Hin by (unfold i in Hj; lia).
      apply nth_error_In in Hin. assumption. }
  assert (Hskip : skipn 5 (prefix ++ section) = section).
  { rewrite skipn_app, Hlen, Nat.sub_diag, skipn_all2 by lia. reflexivity. }
  assert (Hslice7 : slice (prefix ++ section) 7 i = payload).
  { unfold slice. replace 7%nat with (2 + 5)%nat at 2 by lia.
    rewrite <- skipn_skipn, Hskip. unfold section, i. simpl skipn.
    replace (7 + List.length payload - 7)%nat with (List.length payload)
      by lia.
    rewrite firstn_app, firstn_all, Nat.sub_diag. simpl. apply app_nil_r. }
  assert (Hslice5 : slice (prefix ++ section) 5 (i + 1)
                    = address :: command :: payload ++ [address]).
  { unfold slice. rewrite Hskip. unfold section, i.
    replace (7 + List.length payload + 1 - 5)%nat
      with (S (S (List.length payload + 1))) by lia.
    simpl firstn. do 2 f_equal.
    rewrite firstn_app, firstn_all2 by lia.
    replace (List.length payload + 1 - List.length payload)%nat with 1%nat by lia.
    reflexivity. }
  unfold _decode_data.
  replace (getitem (prefix ++ section) 5) with (Ok (A:=Z) address).
  2:{ unfold getitem. change 5%nat with (5 + 0)%nat. rewrite Hnth. reflexivity. }
  replace (getitem (prefix ++ section) 6) with (Ok (A:=Z) command).
  2:{ unfold getitem. change 6%nat with (5 + 1)%nat. rewrite Hnth. reflexivity. }
  cbn [bind]. rewrite Hs. cbn [bind]. rewrite Hslice7, Hslice5.
  replace (getitem (prefix ++ section) (i + 1))
    with (Ok (A:=Z) (_calc_checksum (address :: command :: payload ++ [address]))).
  2:{ unfold getitem, i.
      replace (7 + List.length payload + 1)%nat
        with (5 + (2 + (List.length payload + 1)))%nat by lia.
      rewrite Hnth, Hpay, nth_error_app2 by lia.
      replace (List.length payload + 1 - List.length payload)%nat with 1%nat by lia.
      reflexivity. }
  cbn [bind]. rewrite Z.eqb_refl. reflexivity.
Qed.

(** X8. The frame [send_frame] builds has the layout of a data section.  For
    an address that fits a byte and an ASCII payload that is not empty, the
    built frame put behind any five bytes is read by [_decode_data] as the
    marked address, the first character of the payload as command and the
    rest of the payload as payload: no character of the payload is taken for
    the closing address byte. *)
Theorem built_frame_reads_as_data_section
        (tx_frame : TxPacket) (prefix : bytes) (command : Z) (parameters : str) :
  List.length prefix = 5%nat ->
  0 <= tx_address tx_frame < 256 ->
  tx_payload tx_frame = command :: parameters ->
  is_ascii (tx_payload tx_frame) ->
  _decode_data (prefix ++ fst (build_tx_stream tx_frame))
  = Ok {| data_address := Z.lor (tx_address tx_frame) 0x80;
          data_command := command; data_parameter := 0;
          data_payload := parameters |}.
Proof.
  intros Hlen Ha Hpayload Hascii.
  rewrite build_tx_stream_eq. cbv zeta. unfold fst.
  rewrite Hpayload in *. unfold ord. rewrite map_id.
  pose proof (address_byte_range _ Ha) as Hbyte.
  assert (Hnot : ~ In (Z.lor (tx_address tx_frame) 0x80) parameters).
  { intro Hin. unfold is_ascii in Hascii. rewrite Forall_forall in Hascii.
    specialize (Hascii _ (or_intror Hin)). lia. }
  pose proof (decode_data_built prefix parameters []
                (Z.lor (tx_address tx_frame) 0x80) command Hlen Hnot) as H.
  simpl app in *. rewrite <- app_assoc. simpl app. exact H.
Qed.

Lemma built_frame_reads_as_data_section_witness :
  _decode_data (echo_only_stream
                  ++ fst (build_tx_stream
                            {| tx_address := 1; tx_command := 0; tx_parameter := 0;
                               tx_payload := str_of_string "M1000" |}))
  = Ok {| data_address := 129; data_command := 77; data_parameter := 0;
          data_payload := [49; 48; 48; 48] |}.
Proof.
  apply (built_frame_reads_as_data_section
           {| tx_address := 1; tx_command := 0; tx_parameter := 0;
              tx_payload := str_of_string "M1000" |}
           echo_only_stream 77 [49; 48; 48; 48]).
  - reflexivity.
  - simpl. lia.
  - reflexivity.
  - repeat constructor; simpl; lia.
Defined.

(** * Further properties of the interface and of the transaction layer *)

Lemma bytes_of_reads_S (p : Port) (n k m : nat) :
  bytes_of_reads p n k (S m)
  = match on_read p n k with OneByte b => [b] | _ => [] end
      ++ bytes_of_reads p n (S k) m.
Proof.
  reflexivity.
Qed.

Lemma read_loop_Ok (p : Port) (n : nat) (timeout : Z) :
  forall clock k response_frame runtime_milliseconds out,
    read_loop p n timeout clock k response_frame runtime_milliseconds = Ok out ->
    exists m,
      (m <= S (List.length clock))%nat
      /\ out = response_frame ++ bytes_of_reads p n k m
      /\ (forall j, (k <= j < k + m)%nat ->
                    on_read p n j <> ReadTimesOut /\ on_read p n j <> ReadRaises).
Proof.
  assert (Hnone : forall k frame, exists m,
               (m <= 1)%nat /\ frame = frame ++ bytes_of_reads p n k m
               /\ (forall j, (k <= j < k + m)%nat ->
                             on_read p n j <> ReadTimesOut
                             /\ on_read p n j <> ReadRaises)).
  { intros k frame. exists 0%nat. split; [lia|]. split.
    - symmetry. apply app_nil_r.
    - intros j Hj. lia. }
  induction clock as [|now clock IH]; intros k frame runtime out H;
    simpl in H; unfold _read in H;
    (destruct (runtime <? timeout);
     [|injection H as <-; destruct (Hnone k frame) as (m & Hm & Hout & Hj);
       exists m; split; [simpl; lia|split; assumption]]);
    destruct (on_read p n k) as [b| | |] eqn:Ek; try discriminate.
  - injection H as <-. exists 1%nat. split; [simpl; lia|]. split.
    + rewrite bytes_of_reads_S, Ek. reflexivity.
    + intros j Hj. assert (j = k) by lia. subst j. rewrite Ek. split; discriminate.
  - destruct (runtime >=? timeout); injection H as <-;
      destruct (Hnone k frame) as (m & Hm & Hout & Hj);
      exists m; (split; [simpl; lia|split; assumption]).
  - apply IH in H. destruct H as (m & Hm & Hout & Hj). exists (S m).
    split; [simpl; lia|]. split.
    + rewrite bytes_of_reads_S, Ek, Hout, <- app_assoc. reflexivity.
    + intros j Hjk. destruct (Nat.eq_dec j k) as [->|Hne].
      * rewrite Ek. split; discriminate.
      * apply Hj. lia.
  - destruct (runtime >=? timeout).
    + injection H as <-. destruct (Hnone k frame) as (m & Hm & Hout & Hj).
      exists m. split; [simpl; lia|split; assumption].
    + apply IH in H. destruct H as (m & Hm & Hout & Hj). exists (S m).
      split; [simpl; lia|]. split.
      * rewrite bytes_of_reads_S, Ek. exact Hout.
      * intros j Hjk. destruct (Nat.eq_dec j k) as [->|Hne].
        -- rewrite Ek. split; discriminate.
        -- apply Hj. lia.
Qed.

Lemma read_loop_raises_at (p : Port) (n : nat) (timeout : Z) (e : exn) :
  forall clock k response_frame runtime_milliseconds,
    read_loop p n timeout clock k response_frame runtime_milliseconds = Raise e ->
    exists k', on_read p n k' = ReadTimesOut \/ on_read p n k' = ReadRaises.
Proof.
  induction clock as [|now clock IH]; intros k response_frame runtime H;
    simpl in H; unfold _read in H;
    (destruct (runtime <? timeout); [|discriminate]);
    destruct (on_read p n k) as [b| | |] eqn:Ek;
    try (destruct (runtime >=? timeout));
    try discriminate;
    try (exists k; left; assumption);
    try (exists k; right; assumption);
    apply IH in H; assumption.
Qed.

(** X9. [get_data_or_timeout] lets out two exceptions only: ResponseTimeout,
    and then pyserial raised SerialTimeoutException in one of its reads, and
    ResponseException.  When every read returns a byte or returns none, it
    raises nothing and returns bytes.  Whatever the outcome, the call is
    counted and nothing is sent. *)
Theorem get_data_or_timeout_outcomes
        (p : Port) (timeout : Z) (self : Interface) :
  snd (get_data_or_timeout p timeout self)
  = {| sent := sent self; reads := S (reads self) |}
  /\ (forall e, fst (get_data_or_timeout p timeout self) = Raise e ->
                (e = ResponseTimeout
                 /\ exists k, on_read p (reads self) k = ReadTimesOut)
                \/ e = ResponseException)
  /\ ((forall k, on_read p (reads self) k <> ReadTimesOut
                 /\ on_read p (reads self) k <> ReadRaises) ->
      exists response_frame,
        fst (get_data_or_timeout p timeout self) = Ok response_frame).
Proof.
  unfold get_data_or_timeout. cbn [fst snd]. split; [reflexivity|]. split.
  - intros e He. apply gathered_raises in He. assumption.
  - intro Hquiet.
    destruct (gathered p (reads self) timeout) as [frame|e] eqn:E;
      [exists frame; reflexivity|].
    exfalso. unfold gathered in E.
    destruct (read_loop p (reads self) timeout (clock_ms p (reads self)) 0 [] 0)
      as [frame|e'] eqn:El; [discriminate|].
    apply read_loop_raises_at in El. destruct El as [k [Hk|Hk]].
    + apply (proj1 (Hquiet k) Hk).
    + apply (proj2 (Hquiet k) Hk).
Qed.

Lemma get_data_or_timeout_outcomes_witness :
  fst (get_data_or_timeout (scripted [[ReadTimesOut]]) 500 Interface_init)
  = Raise ResponseTimeout
  /\ exists response_frame,
      fst (get_data_or_timeout silent 500 Interface_init) = Ok response_frame.
Proof.
  split; [reflexivity|].
  destruct (get_data_or_timeout_outcomes silent 500 Interface_init)
    as (_ & _ & Hquiet).
  apply Hquiet. intro k. unfold silent, scripted. simpl.
  destruct k; split; discriminate.
Defined.

(** X10. The bytes [get_data_or_timeout] returns are the bytes its reads
    delivered, in the order of the reads, none left out and none twice: they
    are what the first m reads of the call returned, for some m that is at
    most one more than the number of clock readings taken. *)
Theorem get_data_or_timeout_keeps_order
        (p : Port) (timeout : Z) (self : Interface) (response_frame : bytes) :
  fst (get_data_or_timeout p timeout self) = Ok response_frame ->
  exists m,
    (m <= S (List.length (clock_ms p (reads self))))%nat
    /\ response_frame = bytes_of_reads p (reads self) 0 m
    /\ (List.length response_frame <= m)%nat.
Proof.
  unfold get_data_or_timeout, gathered. cbn [fst]. intro H.
  destruct (read_loop p (reads self) timeout (clock_ms p (reads self)) 0 [] 0)
    as [frame|e] eqn:El.
  - injection H as <-. apply read_loop_Ok in El.
    destruct El as (m & Hm & Hout & _). exists m. simpl in Hout.
    split; [assumption|]. split; [assumption|].
    rewrite Hout. clear. generalize 0%nat as k.
    induction m as [|m IH]; intro k; [simpl; lia|].
    rewrite bytes_of_reads_S, length_app. specialize (IH (S k)).
    destruct (on_read p (reads self) k); simpl; lia.
  - destruct e; discriminate.
Qed.

Lemma get_data_or_timeout_keeps_order_witness :
  fst (get_data_or_timeout (scripted [[OneByte 1; NoByte; OneByte 2]]) 500
         Interface_init) = Ok [1; 2]
  /\ exists m,
      [1; 2] = bytes_of_reads (scripted [[OneByte 1; NoByte; OneByte 2]]) 0 0 m.
Proof.
  split; [reflexivity|].
  destruct (get_data_or_timeout_keeps_order
              (scripted [[OneByte 1; NoByte; OneByte 2]]) 500 Interface_init
              [1; 2] eq_refl) as (m & _ & Hm & _).
  exists m. exact Hm.
Defined.

Lemma gathered_no_time (p : Port) (n : nat) (timeout : Z) :
  timeout <= 0 -> gathered p n timeout = Ok [].
Proof.
  intro H. unfold gathered.
  destruct (clock_ms p n) as [|now clock]; simpl;
    destruct (Z.ltb_spec 0 timeout); try lia; reflexivity.
Qed.

(** X11. With a timeout of zero or less the read loop is not entered:
    [get_data_or_timeout] returns the empty stream without a read, so a
    query never returns a frame; it raises the wrapped failure of its first
    attempt after at most one send. *)
Theorem query_without_time_fails
        (p : Port) (tx_frame : TxPacket) (timeout : Z) (self : QuerySet) :
  timeout <= 0 ->
  (forall n, gathered p n timeout = Ok [])
  /\ (exists cause,
         fst (query p tx_frame timeout self)
         = Raise (GeneralException (Msg_Failed cause))
         /\ (cause = IndexError \/ cause = ValueError \/ cause = SerialException))
  /\ (sends self (snd (query p tx_frame timeout self)) <= 1)%nat.
Proof.
  intro Htime. split; [intro n; apply gathered_no_time; assumption|].
  rewrite query_run. unfold local_query.
  rewrite local_query_loop_step, attempt_run.
  destruct (bytes_ctor (fst (build_tx_stream tx_frame))) as [wire|e] eqn:Eb.
  - cbv zeta.
    destruct (on_send_string p _ wire).
    + rewrite (gathered_no_time p _ timeout Htime).
      cbn [_decode_frame _decode_echo getitem nth_error bind is_ResponseTimeout
           is_ServerException is_GeneralException fst snd].
      split; [exists IndexError; split; [reflexivity|tauto]|].
      unfold sends. simpl. rewrite length_app. simpl. lia.
    + cbn [is_ResponseTimeout is_ServerException is_GeneralException fst snd].
      split; [exists SerialException; split; [reflexivity|tauto]|].
      unfold sends. simpl. rewrite length_app. simpl. lia.
  - apply bytes_ctor_raises in Eb. subst e.
    cbn [is_ResponseTimeout is_ServerException is_GeneralException fst snd].
    split; [exists ValueError; split; [reflexivity|tauto]|].
    unfold sends. simpl. lia.
Qed.

Lemma query_without_time_fails_witness :
  0 <= 0
  /\ exists cause,
      fst (query (scripted [arriving echo_and_data_stream]) request_E 0 fresh)
      = Raise (GeneralException (Msg_Failed cause)).
Proof.
  split; [lia|].
  destruct (query_without_time_fails (scripted [arriving echo_and_data_stream])
              request_E 0 fresh ltac:(lia)) as (_ & (cause & Hq & _) & _).
  exists cause. exact Hq.
Defined.

(** X12. [set] is [query] under another name: for every port, request,
    timeout and state the two return the same frame or raise the same
    failure (the wording of the message aside) and leave the same state.
    The [raise ServerException] of local_set, which could not build its
    exception, is never reached. *)
Theorem set_behaves_as_query
        (p : Port) (tx_frame : TxPacket) (timeout : Z) (self : QuerySet) :
  set p tx_frame timeout self = query p tx_frame timeout self
  /\ local_set p tx_frame timeout self = local_query p tx_frame timeout self
  /\ fst (set p tx_frame timeout self) <> Raise TypeError.
Proof.
  split; [apply set_as_query|]. split; [apply local_set_as_query|].
  rewrite set_as_query.
  pose proof (query_effect p tx_frame timeout self) as [_ H].
  intro E. rewrite E in H. destruct H as [H _]. discriminate.
Qed.

Lemma is_ResponseTimeout_true (e : exn) :
  is_ResponseTimeout e = true -> e = ResponseTimeout.
Proof.
  destruct e; simpl; intro H; try discriminate; reflexivity.
Qed.

Lemma attempt_timeout_sent (p : Port) (tx_frame : TxPacket) (timeout : Z) (self : QuerySet) :
  fst (attempt p tx_frame timeout self) = Raise ResponseTimeout ->
  sent_count (snd (attempt p tx_frame timeout self)) = S (sent_count self)
  /\ exists k, on_read p (reads (phy_com (me_frame self))) k = ReadTimesOut.
Proof.
  rewrite attempt_run.
  destruct (bytes_ctor (fst (build_tx_stream tx_frame))) as [wire|e] eqn:Eb.
  - cbv zeta. destruct (on_send_string p _ wire).
    + destruct (gathered p _ timeout) as [rx_stream|e] eqn:Eg; cbn [fst snd].
      * intro H. apply decode_frame_raises in H. discriminate.
      * intro H. injection H as ->. apply gathered_raises in Eg.
        destruct Eg as [[_ Hk]|]; [|discriminate].
        split; [|assumption].
        unfold sent_count. simpl. rewrite length_app. simpl. lia.
    + cbn [fst]. discriminate.
  - cbn [fst]. intro H. injection H as ->. apply bytes_ctor_raises in Eb.
    discriminate.
Qed.

Lemma loop_timeout_sent
      (p : Port) (tx_frame : TxPacket) (timeout : Z) (rx_frame : RxPacket) (n : nat) :
  forall self,
    fst (local_query_loop p tx_frame timeout rx_frame (S n) self)
    = Raise (GeneralException Msg_Timeout) ->
    sent_count (snd (local_query_loop p tx_frame timeout rx_frame (S n) self))
    = (sent_count self + S n)%nat.
Proof.
  induction n as [|n IH]; intro self; rewrite local_query_loop_step;
    pose proof (attempt_timeout_sent p tx_frame timeout self) as Hsent;
    destruct (attempt p tx_frame timeout self) as [[rx|e] self'];
    cbn [fst snd] in *; try discriminate;
    (destruct (is_ResponseTimeout e) eqn:Et; [|discriminate]);
    apply is_ResponseTimeout_true in Et; subst e;
    destruct (Hsent eq_refl) as [Hs _]; cbn [Nat.eqb].
  - cbn [fst snd]. intros _. lia.
  - intro H. rewrite (IH self' H). lia.
Qed.

(** X13. Whatever goes wrong below it, a query raises GeneralException and
    nothing else.  It carries the timeout text only after exactly three
    sends; otherwise it wraps the failure of the attempt that ended it,
    which is one of IndexError, ValueError, the checksum Exception,
    what pyserial raised in the write, or ResponseException. *)
Theorem query_raises_general_exception
        (p : Port) (tx_frame : TxPacket) (timeout : Z) (self : QuerySet) (e : exn) :
  fst (query p tx_frame timeout self) = Raise e ->
  (e = GeneralException Msg_Timeout
   /\ sends self (snd (query p tx_frame timeout self)) = 3%nat)
  \/ (exists cause,
         e = GeneralException (Msg_Failed cause)
         /\ below_transaction_layer cause = true
         /\ cause <> ResponseTimeout).
Proof.
  intro H.
  pose proof (query_effect p tx_frame timeout self) as [_ Hq].
  rewrite H in Hq. destruct Hq as [Hfail _].
  destruct e as [| | | | | | | | | |m]; try discriminate.
  destruct m as [|cause| |]; try discriminate.
  - left. split; [reflexivity|].
    rewrite query_run in *. unfold local_query in *.
    pose proof (loop_timeout_sent p tx_frame timeout RxPacket_init 2 self) as Hl.
    destruct (local_query_loop p tx_frame timeout RxPacket_init 3 self)
      as [[rx|e] self'] eqn:El; cbn [fst snd] in *; [discriminate|].
    destruct (is_ServerException e) eqn:Es.
    + cbn [fst] in H. injection H as ->. discriminate.
    + destruct (is_GeneralException e); cbn [fst snd] in *;
        injection H as ->; specialize (Hl eq_refl);
        apply sends_of_counts; unfold sent_count in *; simpl; lia.
  - right. exists cause. split; [reflexivity|].
    simpl in Hfail. apply andb_true_iff in Hfail. destruct Hfail as [Hb Ht].
    split; [assumption|]. intros ->. discriminate.
Qed.

Lemma query_raises_general_exception_witness :
  sends fresh (snd (query (scripted [[ReadTimesOut]; [ReadTimesOut]; [ReadTimesOut]])
                      request_E 500 fresh)) = 3%nat.
Proof.
  destruct (query_raises_general_exception
              (scripted [[ReadTimesOut]; [ReadTimesOut]; [ReadTimesOut]])
              request_E 500 fresh (GeneralException Msg_Timeout) eq_refl)
    as [[_ H]|(cause & H & _)]; [exact H|discriminate H].
Defined.

(** X14. When pyserial raises in the write, the query ends there: it raises
    the wrapped exception after that one [send_string], does not read, does
    not try again, and clears [is_ready]. *)
Theorem write_failure_ends_query
        (p : Port) (tx_frame : TxPacket) (timeout : Z) (self : QuerySet) (wire : bytes) :
  bytes_ctor (fst (build_tx_stream tx_frame)) = Ok wire ->
  on_send_string p (sent_count self) wire = WriteRaises ->
  fst (query p tx_frame timeout self)
  = Raise (GeneralException (Msg_Failed SerialException))
  /\ sent (phy_com (me_frame (snd (query p tx_frame timeout self))))
     = sent (phy_com (me_frame self)) ++ [wire]
  /\ reads (phy_com (me_frame (snd (query p tx_frame timeout self))))
     = reads (phy_com (me_frame self))
  /\ is_ready (snd (query p tx_frame timeout self)) = false.
Proof.
  intros Hwire Hsend. rewrite query_run. unfold local_query.
  rewrite local_query_loop_step, attempt_run, Hwire. cbv zeta.
  unfold sent_count in Hsend. rewrite Hsend.
  cbn [is_ResponseTimeout is_ServerException is_GeneralException fst snd].
  repeat split.
Qed.

Lemma write_failure_ends_query_witness :
  fst (query unplugged request_E 500 fresh)
  = Raise (GeneralException (Msg_Failed SerialException))
  /\ sent (phy_com (me_frame (snd (query unplugged request_E 500 fresh))))
     = [[129; 69; 129; 71]].
Proof.
  destruct (write_failure_ends_query unplugged request_E 500 fresh
              [129; 69; 129; 71] eq_refl eq_refl) as (Hq & Hs & _).
  split; [exact Hq|exact Hs].
Defined.

Lemma lor_0x80_out_of_range (a : Z) :
  a < 0 \/ 256 <= a -> in_range_256 (Z.lor a 0x80) = false.
Proof.
  intros [Hneg|Hbig]; unfold in_range_256.
  - assert (Z.lor a 0x80 < 0) by (apply Z.lor_neg; left; assumption).
    destruct (Z.leb_spec 0 (Z.lor a 0x80)); [lia|reflexivity].
  - assert (Hnn : 0 <= Z.lor a 0x80) by (apply Z.lor_nonneg; lia).
    assert (Hlog : 8 <= Z.log2 (Z.lor a 0x80)).
    { rewrite Z.log2_lor by lia.
      assert (8 <= Z.log2 a) by (apply Z.log2_le_pow2; simpl; lia). lia. }
    assert (Hpos : 0 < Z.lor a 0x80).
    { destruct (Z.eq_dec (Z.lor a 0x80) 0) as [E|E]; [|lia].
      rewrite E in Hlog. simpl in Hlog. lia. }
    apply Z.log2_le_pow2 in Hlog; [|assumption]. simpl in Hlog.
    destruct (Z.ltb_spec (Z.lor a 0x80) 256); [lia|].
    apply andb_false_r.
Qed.

(** X15. A request that fits no frame is not sent.  When a character of the
    payload has a code point of 256 or more, or the address is negative or
    256 or more, [bytes(tx_stream)] raises ValueError: the query raises the
    wrapped ValueError at once, hands nothing to the port, does not read,
    and clears [is_ready]. *)
Theorem unencodable_request_is_not_sent
        (p : Port) (tx_frame : TxPacket) (timeout : Z) (self : QuerySet) :
  Exists (fun c => 256 <= c) (tx_payload tx_frame)
  \/ tx_address tx_frame < 0 \/ 256 <= tx_address tx_frame ->
  fst (query p tx_frame timeout self) = Raise (GeneralException (Msg_Failed ValueError))
  /\ phy_com (me_frame (snd (query p tx_frame timeout self)))
     = phy_com (me_frame self)
  /\ is_ready (snd (query p tx_frame timeout self)) = false.
Proof.
  intro Hbad.
  assert (Hctor : bytes_ctor (fst (build_tx_stream tx_frame)) = Raise ValueError).
  { unfold bytes_ctor. rewrite build_tx_stream_eq. cbv zeta. unfold fst.
    replace (forallb in_range_256
               (([Z.lor (tx_address tx_frame) 0x80] ++ map ord (tx_payload tx_frame)
                   ++ [Z.lor (tx_address tx_frame) 0x80])
                  ++ [_calc_checksum
                        ([Z.lor (tx_address tx_frame) 0x80]
                           ++ map ord (tx_payload tx_frame)
                           ++ [Z.lor (tx_address tx_frame) 0x80])]))
      with false; [reflexivity|].
    symmetry. rewrite !forallb_app. destruct Hbad as [Hchar|Haddr].
    - replace (forallb in_range_256 (map ord (tx_payload tx_frame))) with false.
      + rewrite andb_false_l, andb_false_r. reflexivity.
      + symmetry. apply not_true_is_false. intro Hall.
        rewrite forallb_forall in Hall. apply Exists_exists in Hchar.
        destruct Hchar as (c & Hin & Hc).
        specialize (Hall c). unfold ord in Hall. rewrite map_id in Hall.
        specialize (Hall Hin). unfold in_range_256 in Hall.
        apply andb_true_iff in Hall. destruct Hall as [_ Hlt].
        apply Z.ltb_lt in Hlt. lia.
    - simpl. rewrite (lor_0x80_out_of_range _ Haddr). reflexivity. }
  rewrite query_run. unfold local_query.
  rewrite local_query_loop_step, attempt_run, Hctor.
  cbn [is_ResponseTimeout is_ServerException is_GeneralException fst snd].
  repeat split.
Qed.

Lemma unencodable_request_is_not_sent_witness :
  fst (query (scripted [arriving echo_and_data_stream]) request_euro 500 fresh)
  = Raise (GeneralException (Msg_Failed ValueError))
  /\ sent (phy_com (me_frame (snd (query (scripted [arriving echo_and_data_stream])
                                     request_euro 500 fresh)))) = [].
Proof.
  destruct (unencodable_request_is_not_sent
              (scripted [arriving echo_and_data_stream]) request_euro 500 fresh)
    as (Hq & Hs & _).
  - left. constructor. simpl. lia.
  - split; [exact Hq|]. rewrite Hs. reflexivity.
Defined.

(** * Properties of the text conversions *)

Lemma hex_char_value (d : Z) :
  0 <= d < 16 ->
  hex_value (hex_char d) = Some d /\ is_space (hex_char d) = false.
Proof.
  intro H.
  assert (Hd : d = 0 \/ d = 1 \/ d = 2 \/ d = 3 \/ d = 4 \/ d = 5 \/ d = 6
               \/ d = 7 \/ d = 8 \/ d = 9 \/ d = 10 \/ d = 11 \/ d = 12
               \/ d = 13 \/ d = 14 \/ d = 15) by lia.
  repeat (destruct Hd as [->|Hd]; [split; reflexivity|]).
  subst d. split; reflexivity.
Qed.

Lemma fixed_digits_zero (width : nat) :
  map hex_char (fixed_digits width 0) = repeat 48 width.
Proof.
  induction width as [|width IH]; [reflexivity|].
  change (fixed_digits (S width) 0) with (fixed_digits width 0 ++ [0]).
  rewrite map_app, IH. simpl map.
  rewrite <- repeat_cons. reflexivity.
Qed.

Lemma fixed_digits_range (width : nat) :
  forall v, Forall (fun d => 0 <= d < 16) (fixed_digits width v).
Proof.
  induction width as [|width IH]; intro v; simpl; [constructor|].
  apply Forall_app. split; [apply IH|].
  constructor; [|constructor]. apply Z.mod_pos_bound. lia.
Qed.

Lemma zero_pad_snoc (width : nat) (digits : str) (c : char) :
  zero_pad (S width) (digits ++ [c]) = zero_pad width digits ++ [c].
Proof.
  unfold zero_pad. rewrite length_app. simpl.
  replace (width - List.length digits)%nat
    with (S width - (List.length digits + 1))%nat by lia.
  rewrite app_assoc. reflexivity.
Qed.

Lemma pow16_S (w : nat) : 16 ^ Z.of_nat (S w) = 16 * 16 ^ Z.of_nat w.
Proof.
  rewrite Nat2Z.inj_succ, Z.pow_succ_r by lia. reflexivity.
Qed.

Lemma pow2_S (f : nat) : 2 ^ Z.of_nat (S f) = 2 * 2 ^ Z.of_nat f.
Proof.
  rewrite Nat2Z.inj_succ, Z.pow_succ_r by lia. reflexivity.
Qed.

(** Padded to a width they fit, the digits [format] writes are the
    fixed-width digits. *)
Lemma zero_pad_fixed (w : nat) :
  forall fuel v,
    0 <= v < 16 ^ Z.of_nat (S w) ->
    v < 2 ^ Z.of_nat fuel ->
    zero_pad (S w) (map hex_char (hex_digits_upto fuel v))
    = map hex_char (fixed_digits (S w) v).
Proof.
  induction w as [|w IH]; intros fuel v Hv Hfuel.
  - change (16 ^ Z.of_nat 1) with 16 in Hv.
    simpl fixed_digits. rewrite Z.mod_small by lia.
    destruct fuel as [|fuel]; simpl.
    + simpl in Hfuel. assert (v = 0) by lia. subst v. reflexivity.
    + destruct (Z.ltb_spec v 16); [reflexivity|lia].
  - rewrite pow16_S in Hv.
    change (fixed_digits (S (S w)) v)
      with (fixed_digits (S w) (v / 16) ++ [v mod 16]).
    destruct fuel as [|fuel].
    + simpl in Hfuel. assert (v = 0) by lia. subst v.
      change (0 / 16) with 0. change (0 mod 16) with 0.
      rewrite map_app, fixed_digits_zero. simpl map. unfold zero_pad. simpl.
      rewrite app_nil_r.
      change (48 :: 48 :: repeat 48 w) with (repeat 48 (S (S w))).
      rewrite <- repeat_cons. reflexivity.
    + simpl hex_digits_upto. destruct (Z.ltb_spec v 16) as [Hlt|Hge].
      * rewrite (Z.div_small v 16), (Z.mod_small v 16) by lia.
        rewrite map_app, fixed_digits_zero. simpl map. unfold zero_pad. simpl.
        change (48 :: repeat 48 w) with (repeat 48 (S w)).
        reflexivity.
      * rewrite !map_app. simpl map. rewrite zero_pad_snoc.
        rewrite IH; [reflexivity| |].
        -- split; [apply Z.div_pos; lia|].
           apply Z.div_lt_upper_bound; lia.
        -- rewrite pow2_S in Hfuel. apply Z.div_lt_upper_bound; lia.
Qed.

Lemma hex_digits_fuel (v : Z) :
  0 <= v -> v < 2 ^ Z.of_nat (S (Z.to_nat (Z.log2 v))).
Proof.
  intro Hv. rewrite Nat2Z.inj_succ, Z2Nat.id by apply Z.log2_nonneg.
  destruct (Z.eq_dec v 0) as [->|Hne]; [simpl; lia|].
  apply Z.log2_spec. lia.
Qed.

Lemma format_0X_fixed (w : nat) (v : Z) :
  0 <= v < 16 ^ Z.of_nat (S w) ->
  format_0X (S w) v = map hex_char (fixed_digits (S w) v).
Proof.
  intro Hv. unfold format_0X. destruct (Z.ltb_spec v 0); [lia|].
  apply zero_pad_fixed; [assumption|]. apply hex_digits_fuel. lia.
Qed.

Lemma fromhex_digit_pair (top bot : Z) (rest : str) :
  0 <= top < 16 -> 0 <= bot < 16 ->
  fromhex (hex_char top :: hex_char bot :: rest)
  = match fromhex rest with
    | Value b => Value ((16 * top + bot) :: b)
    | Fails e => Fails e
    end.
Proof.
  intros Ht Hb.
  destruct (hex_char_value top Ht) as [Hvt Hst].
  destruct (hex_char_value bot Hb) as [Hvb _].
  simpl. rewrite Hst, Hvt, Hvb. reflexivity.
Qed.

Example format_examples :
  format_0X 4 255 = str_of_string "00FF"
  /\ format_0X 4 70000 = str_of_string "11170"
  /\ format_0X 4 (-255) = str_of_string "-0FF"
  /\ format_0X 8 0 = str_of_string "00000000"
  /\ read_uint16 (str_of_string "00ff") = Value 255
  /\ read_uint16 (str_of_string " 00 FF ") = Value 255
  /\ read_uint16 (str_of_string "0 0FF") = Fails HexValueError
  /\ read_int32 (str_of_string "FFFFFFFF") = Value (-1)
  /\ convert_to_dec (str_of_string "a") = Fails KeyError.
Proof.
  repeat split; reflexivity.
Qed.

(** X16. The two digit tables are inverse to each other.  [convert_to_hex]
    gives the upper-case digit of every value from 0 to 15 and
    [convert_to_dec] takes it back; whatever [convert_to_dec] accepts,
    [convert_to_hex] gives back.  A value outside 0..15 raises KeyError, and
    so does a lower-case digit. *)
Theorem convert_hex_dec_round_trip :
  (forall value, 0 <= value < 16 ->
                 convert_to_hex value = Value [hex_char value]
                 /\ convert_to_dec [hex_char value] = Value value)
  /\ (forall hex_value value,
         convert_to_dec hex_value = Value value ->
         convert_to_hex value = Value hex_value)
  /\ (forall value, value < 0 \/ 16 <= value ->
                    convert_to_hex value = Fails KeyError)
  /\ (forall value, 10 <= value < 16 ->
                    convert_to_dec [hex_char value + 32] = Fails KeyError).
Proof.
  split; [|split; [|split]].
  - intros d H.
    assert (Hd : d = 0 \/ d = 1 \/ d = 2 \/ d = 3 \/ d = 4 \/ d = 5 \/ d = 6
                 \/ d = 7 \/ d = 8 \/ d = 9 \/ d = 10 \/ d = 11 \/ d = 12
                 \/ d = 13 \/ d = 14 \/ d = 15) by lia.
    repeat (destruct Hd as [->|Hd]; [split; reflexivity|]).
    subst d. split; reflexivity.
  - intros c v. unfold convert_to_dec, CONVERT_TO_DEC_DICT. cbn [dict_getitem].
    repeat match goal with
           | |- context [list_eq_dec ?d c ?k] =>
               destruct (list_eq_dec d c k) as [->|?];
               [intro H; injection H as <-; reflexivity|]
           end.
    discriminate.
  - intros v Hv. unfold convert_to_hex, CONVERT_TO_HEX_DICT. cbn [dict_getitem].
    repeat match goal with
           | |- context [Z.eq_dec v ?k] =>
               destruct (Z.eq_dec v k) as [?|?]; [lia|]
           end.
    reflexivity.
  - intros d H.
    assert (Hd : d = 10 \/ d = 11 \/ d = 12 \/ d = 13 \/ d = 14 \/ d = 15) by lia.
    repeat (destruct Hd as [->|Hd]; [reflexivity|]).
    subst d. reflexivity.
Qed.

Lemma convert_hex_dec_round_trip_witness :
  convert_to_hex 11 = Value (str_of_string "B")
  /\ convert_to_dec (str_of_string "B") = Value 11
  /\ convert_to_hex 16 = Fails KeyError
  /\ convert_to_dec (str_of_string "b") = Fails KeyError.
Proof.
  destruct convert_hex_dec_round_trip as (Hhex & _ & Hout & Hlow).
  destruct (Hhex 11 ltac:(lia)) as [H1 H2].
  split; [exact H1|]. split; [exact H2|].
  split; [apply Hout; lia|]. apply (Hlow 11). lia.
Defined.

Lemma hex_digits_upto_range (fuel : nat) :
  forall v, 0 <= v -> Forall (fun d => 0 <= d < 16) (hex_digits_upto fuel v).
Proof.
  induction fuel as [|fuel IH]; intros v Hv; simpl; [constructor|].
  destruct (Z.ltb_spec v 16).
  - constructor; [lia|constructor].
  - apply Forall_app. split; [apply IH; apply Z.div_pos; lia|].
    constructor; [apply Z.mod_pos_bound; lia|constructor].
Qed.

Lemma hex_digits_upto_long (k : nat) :
  forall fuel v,
    16 ^ Z.of_nat k <= v -> v < 2 ^ Z.of_nat fuel ->
    (S k <= List.length (hex_digits_upto fuel v))%nat.
Proof.
  induction k as [|k IH]; intros fuel v Hk Hfuel.
  - simpl in Hk. destruct fuel as [|fuel]; [simpl in Hfuel; lia|].
    simpl. destruct (v <? 16); [simpl; lia|]. rewrite length_app. simpl. lia.
  - rewrite pow16_S in Hk.
    assert (0 < 16 ^ Z.of_nat k) by (apply Z.pow_pos_nonneg; lia).
    destruct fuel as [|fuel]; [simpl in Hfuel; lia|].
    simpl. destruct (Z.ltb_spec v 16); [lia|].
    rewrite length_app. simpl.
    assert (S k <= List.length (hex_digits_upto fuel (v / 16)))%nat.
    { apply IH.
      - apply Z.div_le_lower_bound; lia.
      - rewrite pow2_S in Hfuel. apply Z.div_lt_upper_bound; lia. }
    lia.
Qed.

(** [bytes.fromhex] on digits alone: two digits make one byte. *)
Lemma fromhex_digits_length (n : nat) :
  forall digits b,
    (List.length digits <= n)%nat ->
    Forall (fun d => 0 <= d < 16) digits ->
    fromhex (map hex_char digits) = Value b ->
    List.length digits = (2 * List.length b)%nat.
Proof.
  induction n as [|n IH]; intros digits b Hn Hd H.
  - destruct digits; [|simpl in Hn; lia]. simpl in H. injection H as <-. reflexivity.
  - destruct digits as [|top [|bot digits]].
    + simpl in H. injection H as <-. reflexivity.
    + inversion Hd as [|? ? Ht _]; subst.
      destruct (hex_char_value top Ht) as [Hv Hs].
      simpl in H. rewrite Hs, Hv in H. discriminate.
    + inversion Hd as [|? ? Ht Hd']; subst. inversion Hd' as [|? ? Hb Hd'']; subst.
      cbn [map] in H. rewrite (fromhex_digit_pair top bot _ Ht Hb) in H.
      destruct (fromhex (map hex_char digits)) as [b'|e] eqn:E; [|discriminate].
      injection H as <-. simpl in *.
      rewrite (IH digits b'); [lia|lia|assumption|assumption].
Qed.

Lemma format_0X_negative (width : nat) (v : Z) :
  v < 0 -> fromhex (format_0X width v) = Fails HexValueError.
Proof.
  intro H. unfold format_0X. destruct (Z.ltb_spec v 0); [|lia]. reflexivity.
Qed.

(** A value too large for [w] digits is written with more than [w]. *)
Lemma format_0X_long (w : nat) (v : Z) :
  16 ^ Z.of_nat w <= v ->
  exists digits,
    format_0X w v = map hex_char digits
    /\ Forall (fun d => 0 <= d < 16) digits
    /\ (S w <= List.length digits)%nat.
Proof.
  intro Hv.
  assert (0 < 16 ^ Z.of_nat w) by (apply Z.pow_pos_nonneg; lia).
  unfold format_0X. destruct (Z.ltb_spec v 0); [lia|].
  exists (hex_digits v).
  assert (Hlong : (S w <= List.length (hex_digits v))%nat).
  { apply hex_digits_upto_long; [assumption|]. apply hex_digits_fuel. lia. }
  split; [|split; [apply hex_digits_upto_range; lia|assumption]].
  unfold zero_pad. rewrite length_map.
  replace (w - List.length (hex_digits v))%nat with 0%nat by lia. reflexivity.
Qed.

(** X17. A 16-bit value written by [add_uint16] is read back by
    [read_uint16]: for every value from 0 to 65535 the four digits read
    back as that value.  For no other integer does the reading succeed: a
    negative value is written with a sign and a larger one with more than
    four digits, and both make [read_uint16] raise. *)
Theorem uint16_round_trip (value : Z) :
  (0 <= value < 65536 ->
   read_uint16 (add_uint16 [] value) = Value value
   /\ List.length (add_uint16 [] value) = 4%nat)
  /\ (forall read, read_uint16 (add_uint16 [] value) = Value read ->
                   0 <= value < 65536 /\ read = value).
Proof.
  assert (Hin : 0 <= value < 65536 ->
                read_uint16 (add_uint16 [] value) = Value value
                /\ List.length (add_uint16 [] value) = 4%nat).
  { intro Hv. unfold read_uint16, add_uint16. rewrite app_nil_l.
    rewrite (format_0X_fixed 3 value) by (simpl; lia).
    cbn [fixed_digits app map]. split; [|reflexivity].
    rewrite !fromhex_digit_pair by (apply Z.mod_pos_bound; lia).
    cbn [fromhex unpack_H]. f_equal.
    Z.div_mod_to_equations. lia. }
  split; [exact Hin|].
  intros read H.
  destruct (Z.lt_ge_cases value 0) as [Hneg|Hnn].
  { unfold read_uint16, add_uint16 in H. rewrite app_nil_l in H.
    rewrite format_0X_negative in H by assumption. discriminate. }
  destruct (Z.lt_ge_cases value 65536) as [Hlt|Hbig].
  { split; [lia|]. destruct (Hin ltac:(lia)) as [Hr _]. congruence. }
  exfalso. unfold read_uint16, add_uint16 in H. rewrite app_nil_l in H.
  destruct (format_0X_long 4 value Hbig) as (digits & Hf & Hd & Hlen).
  rewrite Hf in H.
  destruct (fromhex (map hex_char digits)) as [b|e] eqn:E; [|discriminate].
  apply (fromhex_digits_length _ digits b (Nat.le_refl _) Hd) in E.
  destruct b as [|b0 [|b1 [|b2 b]]]; simpl in H, E; try discriminate; lia.
Qed.

Lemma uint16_round_trip_witness :
  read_uint16 (add_uint16 [] 4660) = Value 4660
  /\ add_uint16 [] 4660 = str_of_string "1234".
Proof.
  destruct (uint16_round_trip 4660) as [Hin _].
  destruct (Hin ltac:(lia)) as [Hr _].
  split; [exact Hr|reflexivity].
Defined.

(** X18. [add_int32] writes its value as [add_uint32] does, eight digits
    without a two's complement.  What [read_int32] reads back is the value
    itself from 0 to 2^31 - 1 and the value less 2^32 from 2^31 to
    2^32 - 1; a negative value, written with a sign, and a value of 2^32 or
    more make [read_int32] raise, so no negative number survives the way
    there and back. *)
Theorem int32_round_trip (value : Z) :
  (0 <= value < 2 ^ 32 ->
   read_int32 (add_int32 [] value)
   = Value (if value <? 2 ^ 31 then value else value - 2 ^ 32))
  /\ (forall read, read_int32 (add_int32 [] value) = Value read ->
                   0 <= value < 2 ^ 32
                   /\ read = (if value <? 2 ^ 31 then value else value - 2 ^ 32))
  /\ (value < 0 -> read_int32 (add_int32 [] value) = Fails HexValueError).
Proof.
  assert (Hin : 0 <= value < 2 ^ 32 ->
                read_int32 (add_int32 [] value)
                = Value (if value <? 2 ^ 31 then value else value - 2 ^ 32)).
  { intro Hv. unfold read_int32, add_int32, add_uint32. rewrite app_nil_l.
    rewrite (format_0X_fixed 7 value) by (simpl; lia).
    cbn [fixed_digits app map].
    rewrite !fromhex_digit_pair by (apply Z.mod_pos_bound; lia).
    cbn [fromhex unpack_i]. cbv zeta.
    match goal with
    | |- Value (if ?u <? _ then _ else _) = _ =>
        assert (Hu : u = value) by (Z.div_mod_to_equations; lia); rewrite Hu
    end.
    reflexivity. }
  assert (Hneg : value < 0 -> read_int32 (add_int32 [] value) = Fails HexValueError).
  { intro Hv. unfold read_int32, add_int32, add_uint32. rewrite app_nil_l.
    rewrite format_0X_negative by assumption. reflexivity. }
  split; [exact Hin|]. split; [|exact Hneg].
  intros read H.
  destruct (Z.lt_ge_cases value 0) as [Hn|Hnn].
  { rewrite (Hneg Hn) in H. discriminate. }
  destruct (Z.lt_ge_cases value (2 ^ 32)) as [Hlt|Hbig].
  { split; [lia|]. rewrite (Hin ltac:(lia)) in H. congruence. }
  exfalso. unfold read_int32, add_int32, add_uint32 in H. rewrite app_nil_l in H.
  destruct (format_0X_long 8 value Hbig) as (digits & Hf & Hd & Hlen).
  rewrite Hf in H.
  destruct (fromhex (map hex_char digits)) as [b|e] eqn:E; [|discriminate].
  apply (fromhex_digits_length _ digits b (Nat.le_refl _) Hd) in E.
  destruct b as [|b0 [|b1 [|b2 [|b3 [|b4 b]]]]]; simpl in H, E;
    try discriminate; lia.
Qed.

Lemma int32_round_trip_witness :
  read_int32 (add_int32 [] 305419896) = Value 305419896
  /\ read_int32 (add_int32 [] 4294967295) = Value (-1)
  /\ read_int32 (add_int32 [] (-1)) = Fails HexValueError.
Proof.
  destruct (int32_round_trip 305419896) as (H1 & _ & _).
  destruct (int32_round_trip 4294967295) as (H2 & _ & _).
  destruct (int32_round_trip (-1)) as (_ & _ & H3).
  split; [apply H1; lia|]. split; [apply H2; lia|]. apply H3. lia.
Defined.

(** * Address bytes *)

Lemma land_0x80_low (value : Z) : 0 <= value < 128 -> Z.land value 0x80 = 0.
Proof.
  intro H. apply Z.bits_inj'. intros n Hn.
  rewrite Z.land_spec, Z.bits_0.
  destruct (Z.eq_dec n 7) as [->|Hne].
  - destruct (Z.eq_dec value 0) as [->|Hz]; [reflexivity|].
    rewrite (Z.bits_above_log2 value 7); [reflexivity|lia|].
    apply Z.log2_lt_pow2; simpl; lia.
  - change 0x80 with (2 ^ 7). rewrite Z.pow2_bits_eqb by lia.
    destruct (Z.eqb_spec 7 n); [lia|]. apply andb_false_r.
Qed.

(** X19. [add_address] appends one byte whose high bit is set.  For a
    logical address from 0 to 127 that byte is the address plus 128, so that
    different addresses give different bytes and [& 0x7F] gives the address
    back; marking a byte that is marked already changes nothing. *)
Theorem add_address_marks_high_bit (stream : list Z) (value : Z) :
  VarConvert.add_address stream value = stream ++ [Z.lor value 0x80]
  /\ Z.testbit (Z.lor value 0x80) 7 = true
  /\ VarConvert.add_address stream (Z.lor value 0x80)
     = VarConvert.add_address stream value
  /\ (0 <= value < 128 ->
      Z.lor value 0x80 = value + 128
      /\ Z.land (Z.lor value 0x80) 0x7F = value).
Proof.
  split; [reflexivity|]. split.
  { rewrite Z.lor_spec. change (Z.testbit 0x80 7) with true. apply orb_true_r. }
  split.
  { unfold VarConvert.add_address. rewrite <- Z.lor_assoc, Z.lor_diag.
    reflexivity. }
  intro H.
  assert (Hlor : Z.lor value 0x80 = value + 128).
  { pose proof (Z.add_lor_land value 0x80) as Hadd.
    rewrite (land_0x80_low value H) in Hadd. lia. }
  split; [exact Hlor|].
  rewrite Hlor, land_0x7F_mod.
  rewrite <- (Z.mod_small value 128) at 2 by lia.
  replace (value + 128) with (value + 1 * 128) by lia. apply Z.mod_add. lia.
Qed.

Lemma add_address_marks_high_bit_witness :
  0 <= 5 < 128 /\ VarConvert.add_address [] 5 = [133] /\ Z.land 133 0x7F = 5.
Proof.
  destruct (add_address_marks_high_bit [] 5) as (_ & _ & _ & H).
  destruct (H ltac:(lia)) as [_ Hback].
  split; [lia|]. split; [reflexivity|exact Hback].
Defined.

(** * What a query puts on the wire *)

Lemma loop_sends_one_frame
      (p : Port) (tx_frame : TxPacket) (timeout : Z) (rx_frame : RxPacket)
      (wire : bytes) (n : nat) :
  bytes_ctor (fst (build_tx_stream tx_frame)) = Ok wire ->
  forall self,
  exists k r,
    (1 <= k <= S n)%nat /\ (k - 1 <= r <= k)%nat
    /\ sent (phy_com (me_frame
                        (snd (local_query_loop p tx_frame timeout rx_frame (S n) self))))
       = sent (phy_com (me_frame self)) ++ repeat wire k
    /\ reads (phy_com (me_frame
                         (snd (local_query_loop p tx_frame timeout rx_frame (S n) self))))
       = (reads (phy_com (me_frame self)) + r)%nat
    /\ tx_checksum (me_frame
                      (snd (local_query_loop p tx_frame timeout rx_frame (S n) self)))
       = snd (build_tx_stream tx_frame).
Proof.
  intro Hwire.
  assert (Hone : forall self : QuerySet,
             let out := attempt p tx_frame timeout self in
             exists r, (r <= 1)%nat
               /\ sent (phy_com (me_frame (snd out)))
                  = sent (phy_com (me_frame self)) ++ [wire]
               /\ reads (phy_com (me_frame (snd out)))
                  = (reads (phy_com (me_frame self)) + r)%nat
               /\ tx_checksum (me_frame (snd out)) = snd (build_tx_stream tx_frame)
               /\ (forall e, fst out = Raise e -> is_ResponseTimeout e = true ->
                             r = 1%nat)).
  { intro self. cbv zeta. rewrite attempt_run, Hwire. cbv zeta.
    destruct (on_send_string p _ wire).
    - destruct (gathered p _ timeout) as [rx_stream|e]; cbn [fst snd];
        exists 1%nat; simpl; repeat split; try lia.
    - exists 0%nat. simpl. repeat split; try lia.
      intros e He. injection He as <-. discriminate. }
  induction n as [|n IH]; intro self; rewrite local_query_loop_step;
    destruct (Hone self) as (r & Hr & Hs & Hrd & Hc & Ht); cbv zeta in *;
    destruct (attempt p tx_frame timeout self) as [[rx|e] self'];
    cbn [fst snd] in *.
  - exists 1%nat, r. repeat split; try assumption; lia.
  - destruct (is_ResponseTimeout e) eqn:Et; cbn [Nat.eqb fst snd];
      exists 1%nat, r; repeat split; try assumption; lia.
  - exists 1%nat, r. repeat split; try assumption; lia.
  - destruct (is_ResponseTimeout e) eqn:Et; cbn [Nat.eqb].
    + destruct (IH self') as (k & r' & Hk & Hr' & Hs' & Hrd' & Hc').
      specialize (Ht e eq_refl Et). subst r.
      exists (S k), (S r'). split; [lia|]. split; [lia|]. split; [|split].
      * rewrite Hs', Hs, <- app_assoc. reflexivity.
      * rewrite Hrd', Hrd. lia.
      * assumption.
    + cbn [fst snd]. exists 1%nat, r. repeat split; try assumption; lia.
Qed.

Lemma query_wire
      (p : Port) (tx_frame : TxPacket) (timeout : Z) (self : QuerySet) (wire : bytes) :
  bytes_ctor (fst (build_tx_stream tx_frame)) = Ok wire ->
  exists k r,
    (1 <= k <= 3)%nat /\ (k - 1 <= r <= k)%nat
    /\ sent (phy_com (me_frame (snd (query p tx_frame timeout self))))
       = sent (phy_com (me_frame self)) ++ repeat wire k
    /\ reads (phy_com (me_frame (snd (query p tx_frame timeout self))))
       = (reads (phy_com (me_frame self)) + r)%nat
    /\ tx_checksum (me_frame (snd (query p tx_frame timeout self)))
       = snd (build_tx_stream tx_frame).
Proof.
  intro Hwire. rewrite query_run. unfold local_query.
  destruct (loop_sends_one_frame p tx_frame timeout RxPacket_init wire 2 Hwire self)
    as (k & r & Hk & Hr & Hs & Hrd & Hc).
  exists k, r.
  destruct (local_query_loop p tx_frame timeout RxPacket_init 3 self)
    as [[rx|e] self']; cbn [fst snd] in *.
  - repeat split; try assumption; lia.
  - destruct (is_ServerException e); [|destruct (is_GeneralException e)];
      cbn [fst snd me_frame]; repeat split; try assumption; lia.
Qed.



(** * The command layer *)

Lemma attempt_Ok (p : Port) (tx_frame : TxPacket) (timeout : Z) (self : QuerySet)
      (rx : RxPacket) :
  fst (attempt p tx_frame timeout self) = Ok rx ->
  exists rx_stream,
    gathered p (reads (phy_com (me_frame self))) timeout = Ok rx_stream
    /\ _decode_frame RxPacket_init rx_stream = Ok rx.
Proof.
  rewrite attempt_run.
  destruct (bytes_ctor (fst (build_tx_stream tx_frame))) as [wire|e];
    [|discriminate].
  cbv zeta. destruct (on_send_string p _ wire); [|discriminate].
  destruct (gathered p _ timeout) as [rx_stream|e]; [|discriminate].
  cbn [fst]. intro H. exists rx_stream. split; [reflexivity|assumption].
Qed.

Lemma loop_Ok
      (p : Port) (tx_frame : TxPacket) (timeout : Z) (rx_frame : RxPacket) (n : nat)
      (rx : RxPacket) :
  forall self,
    fst (local_query_loop p tx_frame timeout rx_frame (S n) self) = Ok rx ->
    exists rx_stream, _decode_frame RxPacket_init rx_stream = Ok rx.
Proof.
  induction n as [|n IH]; intro self; rewrite local_query_loop_step;
    pose proof (attempt_Ok p tx_frame timeout self) as Ha;
    destruct (attempt p tx_frame timeout self) as [[rx'|e] self'];
    cbn [fst snd] in *.
  - intro H. injection H as ->. destruct (Ha rx eq_refl) as (s & _ & Hd).
    exists s. assumption.
  - destruct (is_ResponseTimeout e); cbn [Nat.eqb fst]; discriminate.
  - intro H. injection H as ->. destruct (Ha rx eq_refl) as (s & _ & Hd).
    exists s. assumption.
  - destruct (is_ResponseTimeout e); cbn [Nat.eqb fst]; [apply IH|discriminate].
Qed.

Lemma query_Ok (p : Port) (tx_frame : TxPacket) (timeout : Z) (self : QuerySet)
      (rx : RxPacket) :
  fst (query p tx_frame timeout self) = Ok rx ->
  exists rx_stream, _decode_frame RxPacket_init rx_stream = Ok rx.
Proof.
  rewrite query_run. unfold local_query.
  pose proof (loop_Ok p tx_frame timeout RxPacket_init 2 rx self) as Hl.
  destruct (local_query_loop p tx_frame timeout RxPacket_init 3 self)
    as [[rx'|e] self']; cbn [fst] in *.
  - assumption.
  - destruct (is_ServerException e); [|destruct (is_GeneralException e)];
      discriminate.
Qed.

(** X21. [get_command] asks with the command as payload and returns what the
    query returns.  A frame it returns was decoded from a received stream
    and has its echo section and its data section, the payload free of the
    address byte, so that reading [data_packet.payload] of it cannot fail.
    What it raises is a ComCommandException around the GeneralException of
    the query, never around anything else. *)
Theorem get_command_outcomes
        (p : Port) (address : Z) (command : str) (timeout : Z) (query_set : QuerySet) :
  snd (get_command p address command timeout query_set)
  = snd (query p (with_payload (TxPacket_init address) command) timeout query_set)
  /\ match fst (get_command p address command timeout query_set) with
     | Returned rx =>
         fst (query p (with_payload (TxPacket_init address) command) timeout
                query_set) = Ok rx
         /\ exists echo data,
             rx = {| echo_packet := Some echo; data_packet := Some data |}
             /\ ~ In (data_address data) (data_payload data)
     | ComCommandException cause =>
         fst (query p (with_payload (TxPacket_init address) command) timeout
                query_set) = Raise cause
         /\ transaction_failure cause = true
     end.
Proof.
  unfold get_command. cbv zeta.
  change (VarConvert.add_string (tx_payload (TxPacket_init address)) command)
    with command.
  pose proof (query_Ok p (with_payload (TxPacket_init address) command) timeout
                query_set) as Hok.
  pose proof (query_effect p (with_payload (TxPacket_init address) command) timeout
                query_set) as [_ Heff].
  destruct (query p (with_payload (TxPacket_init address) command) timeout
              query_set) as [[rx|e] query_set']; cbn [fst snd] in *.
  - destruct (Hok rx eq_refl) as (rx_stream & Hd).
    apply decode_frame_Ok in Hd. destruct Hd as (echo & data & _ & Hdata & ->).
    cbn [echo_packet fst snd]. split; [reflexivity|]. split; [reflexivity|].
    exists echo, data. split; [reflexivity|].
    apply decode_data_Ok in Hdata.
    destruct Hdata as (i & Hi & _ & _ & Hs & _ & Hp & _).
    rewrite Hp. intro Hin. apply in_slice in Hin. destruct Hin as (j & Hj & Hnth).
    apply (scan_skips _ _ _ _ Hs j Hj Hnth).
  - split; [reflexivity|]. split; [reflexivity|]. apply Heff.
Qed.

Lemma uint_string_ascii (d : Decimal.uint) :
  is_ascii (str_of_string (NilEmpty.string_of_uint d)).
Proof.
  unfold is_ascii, str_of_string.
  induction d; simpl; constructor; try assumption; simpl; lia.
Qed.

Lemma str_of_int_ascii (value : Z) : is_ascii (str_of_int value).
Proof.
  unfold str_of_int, Z.to_int, NilZero.string_of_int, NilZero.string_of_uint.
  destruct value as [|q|q].
  - repeat constructor; simpl; lia.
  - destruct (Pos.to_uint q) eqn:E; try apply uint_string_ascii.
    repeat constructor; simpl; lia.
  - assert (Hsign : forall s, is_ascii (str_of_string s) ->
                              is_ascii (str_of_string (String "-" s))).
    { intros s Hs. unfold is_ascii, str_of_string in *. simpl.
      constructor; [simpl; lia|assumption]. }
    destruct (Pos.to_uint q) eqn:E; apply Hsign; try apply uint_string_ascii.
    repeat constructor; simpl; lia.
Qed.

Lemma set_command_wire_of
      (p : Port) (address : Z) (command : str) (value : Z) (timeout : Z)
      (query_set : QuerySet) :
  0 <= address < 256 ->
  is_ascii command ->
  exists k,
    (1 <= k <= 3)%nat
    /\ sent (phy_com (me_frame
                        (snd (set_command p address command value timeout
                                query_set))))
       = sent (phy_com (me_frame query_set))
           ++ repeat
                (([Z.lor address 0x80] ++ (command ++ str_of_int value)
                    ++ [Z.lor address 0x80])
                   ++ [_calc_checksum
                         ([Z.lor address 0x80] ++ (command ++ str_of_int value)
                            ++ [Z.lor address 0x80])]) k.
Proof.
  intros Ha Hc. unfold set_command. cbv zeta.
  change (VarConvert.add_string (tx_payload (TxPacket_init address))
            (command ++ str_of_int value))
    with (command ++ str_of_int value).
  set (tx_frame := with_payload (TxPacket_init address) (command ++ str_of_int value)).
  assert (Hascii : is_ascii (tx_payload tx_frame)).
  { unfold is_ascii. simpl. apply Forall_app. split; [exact Hc|].
    apply str_of_int_ascii. }
  pose proof (wire_in_range tx_frame Ha Hascii) as Hwire.
  destruct (query_wire p tx_frame timeout query_set _ Hwire)
    as (k & r & Hk & _ & Hs & _).
  exists k. split; [assumption|].
  rewrite set_as_query.
  destruct (query p tx_frame timeout query_set) as [[rx|e] query_set'];
    cbn [fst snd] in *; rewrite Hs; rewrite build_tx_stream_eq; cbv zeta;
    unfold fst, ord; simpl tx_payload; simpl tx_address; rewrite map_id;
    reflexivity.
Qed.




